(** * Verification of the note synthesiser (honors1.py, honors2.py)

    Shallow embedding of the two synthesis engines of the repository:

    - [honors1.py]: single-voice engine, plain sine notes, notes
      concatenated one after the other;
    - [honors2.py]: two-voice engine, additive synthesis with exponential
      decay, notes placed on a shared timeline by start time.

    Python [int] values are modelled by [Z], numpy one-dimensional arrays
    by [list R], dictionaries by [gmap], exceptions by the error monad
    [result].  Lengths and indices are computed over [Z] the way the
    source computes them (truncation by [int], slice clipping,
    broadcasting rules of slice assignment).

    Python floats are modelled at two levels of detail.

    - Modules [Honors1] and [Honors2] take every float for the real
      number it approximates (exact arithmetic).  They carry the
      properties that do not depend on the last bit of a float: the
      errors of the constructors, the frequencies, the algebra of
      waveform addition, the bookkeeping of start times, the
      concatenation of honors1, the range of the samples.
    - Module [Rounded] takes durations, clocks and start times for the
      binary64 floats they are, with every operation rounded.  The
      number of samples [int(SAMPLERATE * duration)] of a buffer and the
      index [int(SAMPLERATE * start_time)] of a placement truncate a
      rounded product, and whether a note fits the accumulator depends
      on them: lengths, indices and the outcome of the timeline mixer
      are stated on this model.  Sample values stay real numbers. *)

From Stdlib Require Import Reals Lra Lia ZArith String SpecFloat.
From stdpp Require Import base gmap list strings.

Open Scope R_scope.

(** ** Python and numpy primitives used by the source *)

Module Py.

(** Exceptions raised by the primitives the two files use. *)
Inductive exn : Type :=
  | KeyError (key : string)
  | ValueError (msg : string)
  | IndexError
  | ZeroDivisionError
  | OverflowError (msg : string).

Inductive result (A : Type) : Type :=
  | Ok (a : A)
  | Raise (e : exn).
Arguments Ok {A} a.
Arguments Raise {A} e.

#[global] Instance result_ret : MRet result := fun A a => Ok a.
#[global] Instance result_bind : MBind result := fun A B k m =>
  match m with
  | Ok a => k a
  | Raise e => Raise e
  end.

(** [int(x)] on a float: truncation towards zero. *)
Definition int (x : R) : Z :=
  if Rle_dec 0 x then Zfloor x else Zceil x.

(** [len(a)] *)
Definition len {A} (a : list A) : Z := Z.of_nat (length a).

(** [d[k]] on a dictionary with string keys. *)
Definition getitem {V} (d : gmap string V) (k : string) : result V :=
  match d !! k with
  | Some v => Ok v
  | None => Raise (KeyError k)
  end.

(** [d.get(k, dflt)] with [k] possibly [None] (never a key). *)
Definition dict_get {V} (d : gmap string V) (k : option string) (dflt : V) : V :=
  match k with
  | Some s => default dflt (d !! s)
  | None => dflt
  end.

(** [l[i]] on a Python list, for a non-negative index. *)
Definition list_index {A} (l : list A) (i : nat) : result A :=
  match l !! i with
  | Some x => Ok x
  | None => Raise IndexError
  end.

(** Truth value of a [str | None]: [None] and the empty string are false. *)
Definition truthy (s : option string) : bool :=
  match s with
  | None => false
  | Some EmptyString => false
  | Some (String _ _) => true
  end.

(** [a / b] with an [int] divisor. *)
Definition truediv (a : R) (b : Z) : result R :=
  if (b =? 0)%Z then Raise ZeroDivisionError else Ok (a / IZR b).

(** [np.zeros(n)] *)
Definition np_zeros (n : Z) : result (list R) :=
  if (n <? 0)%Z then Raise (ValueError "negative dimensions are not allowed")
  else Ok (replicate (Z.to_nat n) 0).

(** [np.zeros_like(a)] *)
Definition np_zeros_like (a : list R) : list R := replicate (length a) 0.

(** [np.linspace(start, stop, num, endpoint=False)]:
    [step = (stop - start) / num], sample [n] is [n * step + start]. *)
Definition np_linspace (start stop : R) (num : Z) : result (list R) :=
  if (num <? 0)%Z then Raise (ValueError "Number of samples must be non-negative")
  else
    let step := (stop - start) / IZR num in
    Ok ((fun n : nat => INR n * step + start) <$> seq 0 (Z.to_nat num)).

(** Clipping of one slice bound against the array length
    (negative bounds count from the end). *)
Definition adjust_index (i n : Z) : Z :=
  if (i <? 0)%Z then Z.max 0 (i + n) else Z.min i n.

(** Offset and number of elements selected by [a[start:stop]]. *)
Definition slice_bounds (start stop n : Z) : nat * nat :=
  let s := adjust_index start n in
  let e := adjust_index stop n in
  (Z.to_nat s, Z.to_nat (e - s)).

(** Broadcasting of a one-dimensional value to a slice of [m] elements:
    equal lengths, or a single element repeated; anything else is the
    "could not broadcast input array" error. *)
Definition broadcast_to (v : list R) (m : nat) : result (list R) :=
  if decide (length v = m) then Ok v
  else match v with
       | [x] => Ok (replicate m x)
       | _ => Raise (ValueError "could not broadcast input array")
       end.

(** [a[start:stop] = v] *)
Definition setitem_slice (a : list R) (start stop : Z) (v : list R)
  : result (list R) :=
  let '(s, m) := slice_bounds start stop (len a) in
  v' ← broadcast_to v m;
  mret (take s a ++ v' ++ drop (s + m) a).

(** [a[start:stop] += v] *)
Definition iadd_slice (a : list R) (start stop : Z) (v : list R)
  : result (list R) :=
  let '(s, m) := slice_bounds start stop (len a) in
  v' ← broadcast_to v m;
  mret (take s a ++ zip_with Rplus (take m (drop s a)) v' ++ drop (s + m) a).

End Py.
Import Py.

(** ** Python floats (IEEE 754 binary64)

    Durations, clocks and start times are Python floats; the number of
    samples of a buffer and the index of a placement are [int] of a
    float product, so they depend on how that product is rounded.  The
    arithmetic below is the one of the Standard Library's [SpecFloat] at
    precision 53 and exponent bound 1024 (round to nearest, ties to
    even), which evaluates inside Rocq. *)

Module Float64.

Definition float : Type := spec_float.
Definition prec : Z := 53.
Definition emax : Z := 1024.

(** [float(z)] for a Python [int]. *)
Definition of_int (z : Z) : float := binary_normalize prec emax z 0 false.
Arguments of_int z%_Z : simpl never.

Definition zero : float := S754_zero false.

Definition mul : float → float → float := SFmul prec emax.
Definition div : float → float → float := SFdiv prec emax.
Definition add : float → float → float := SFadd prec emax.
Definition sub : float → float → float := SFsub prec emax.

(** [a < b] and [a == b] ([False] on a NaN). *)
Definition ltb : float → float → bool := SFltb.
Definition eqb : float → float → bool := SFeqb.

(** [max(a, b)]: the first argument unless the second is greater. *)
Definition max (a b : float) : float := if ltb a b then b else a.

(** [int(x)]: truncation towards zero. *)
Definition to_int (x : float) : result Z :=
  match x with
  | S754_zero _ => Ok 0%Z
  | S754_finite s m e =>
      let magnitude := Z.shiftl (Z.pos m) e in
      Ok (if s then - magnitude else magnitude)%Z
  | S754_infinity _ =>
      Raise (OverflowError "cannot convert float infinity to integer")
  | S754_nan => Raise (ValueError "cannot convert float NaN to integer")
  end.

(** The real number a float stands for (0 for an infinity and for a NaN,
    which stand for none). *)
Definition to_R (x : float) : R :=
  match x with
  | S754_finite s m e => IZR (cond_Zopp s (Z.pos m)) * powerRZ 2 e
  | _ => 0
  end.

(** Not below zero: a zero of either sign, a positive number or plus
    infinity; a NaN passes too ([int] rejects it). *)
Definition nonneg (x : float) : Prop :=
  match x with
  | S754_finite s _ _ | S754_infinity s => s = false
  | S754_zero _ | S754_nan => True
  end.

End Float64.

Declare Scope float64_scope.
Delimit Scope float64_scope with f64.
Infix "+" := Float64.add : float64_scope.
Infix "-" := Float64.sub : float64_scope.
Infix "*" := Float64.mul : float64_scope.
Infix "/" := Float64.div : float64_scope.

(** ** Module-level constants

    Lines 8-25 of honors1.py and lines 8-22 of honors2.py define the same
    values for the names they share; [OVERTONE_FACTORS] and
    [DECAY_COEFFICIENTS] exist in honors2.py only. *)

Definition AMPLITUDE : Z := 4096.
Definition SAMPLERATE : Z := 44100.
Definition OVERTONE_FACTORS : list R :=
  [0.36046922; 0.50991279; 0.11674297; 0.01287502].
Definition DECAY_COEFFICIENTS : list R := [0.25656511; 1.64549261].

Definition PITCH_CLASSES : gmap string Z :=
  list_to_map
    [("C"%string, 0%Z); ("c"%string, 1%Z); ("D"%string, 2%Z);
     ("d"%string, 3%Z); ("E"%string, 4%Z); ("F"%string, 5%Z);
     ("f"%string, 6%Z); ("G"%string, 7%Z); ("g"%string, 8%Z);
     ("A"%string, 9%Z); ("a"%string, 10%Z); ("B"%string, 11%Z)].

Definition DURATION_MAP : gmap string R :=
  list_to_map
    [("WN"%string, 4.0); ("DHN"%string, 3.0); ("DDHN"%string, 3.5);
     ("HN"%string, 2.0); ("HNT"%string, 4.0 / 3); ("QN"%string, 1.0);
     ("QNT"%string, 2.0 / 3); ("DQN"%string, 1.5); ("DDQN"%string, 1.75);
     ("EN"%string, 0.5); ("DEN"%string, 0.75); ("ENT"%string, 1.0 / 3);
     ("DDEN"%string, 0.875); ("SN"%string, 0.25); ("DSN"%string, 0.375);
     ("SNT"%string, 1.0 / 6); ("TN"%string, 0.125); ("TNT"%string, 1.0 / 12)].

Definition TEMPOS : gmap string Z :=
  list_to_map
    [("Grave"%string, 30%Z); ("Lento"%string, 40%Z); ("Largo"%string, 50%Z);
     ("Adagio"%string, 60%Z); ("Adagietto"%string, 70%Z);
     ("Andante"%string, 75%Z); ("Moderato"%string, 90%Z);
     ("Allegretto"%string, 100%Z); ("Allegro"%string, 120%Z);
     ("Vivace"%string, 135%Z); ("Presto"%string, 170%Z);
     ("Prestissimo"%string, 180%Z)].

(** [Note.calculate_frequency] and [Note.calculate_duration] have the same
    body in both files; they read the fields [pitch], [octave], [tempo] and
    [duration_symbol] of the note under construction. *)

Definition calculate_frequency (pitch : option string) (octave : Z) : R :=
  if negb (truthy pitch) then 0
  else
    let base_frequency := 262%Z in
    let note_step := dict_get PITCH_CLASSES pitch 0%Z in
    let octave_offset := (octave - 4)%Z in
    IZR base_frequency * Rpower 2 (IZR note_step / 12) * powerRZ 2 octave_offset.

Definition calculate_duration (tempo : Z) (duration_symbol : string) : result R :=
  beats_per_second ← truediv 60 tempo;
  duration_notation ← getitem DURATION_MAP duration_symbol;
  mret (duration_notation * beats_per_second).

(** One parsed [pitch+octave,duration_symbol] item of a note line, as
    [Song] hands it to the [Note] constructor. *)
Record note_info : Type := NoteInfo {
  info_pitch : option string;
  info_octave : Z;
  info_duration : string
}.

(** ** honors1.py, floats as real numbers *)

Module Honors1.

Module Wave.
Record t : Type := mk {
  amplitude : Z;
  frequency : R;
  duration : R;
  data : list R
}.

(** With floats as real numbers the number of samples is the integer
    part of the exact product [SAMPLERATE * duration]; the number the
    interpreter obtains from the rounded product is the one of
    [Rounded.Honors1.Wave.generate_wave]. *)
Definition generate_wave (amplitude : Z) (frequency duration : R)
  : result (list R) :=
  ts ← np_linspace 0 duration (int (IZR SAMPLERATE * duration));
  mret ((fun tn => IZR amplitude * sin (2 * PI * frequency * tn)) <$> (ts : list R)).

Definition init (frequency duration : R) (amplitude : Z)
    (data : option (list R)) : result t :=
  d ← match data with
      | None => generate_wave amplitude frequency duration
      | Some d => mret d
      end;
  mret (mk amplitude frequency duration d).

Definition add (self other : t) : result t :=
  let max_length := Z.max (len (data self)) (len (data other)) in
  combined_data ← np_zeros max_length;
  combined_data ← iadd_slice combined_data 0 (len (data self)) (data self);
  combined_data ← iadd_slice combined_data 0 (len (data other)) (data other);
  init (frequency self) (duration self) AMPLITUDE (Some combined_data).
End Wave.

Module Note.
Record t : Type := mk {
  pitch : option string;
  octave : Z;
  duration_symbol : string;
  tempo : Z;
  frequency : R;
  duration : R;
  amplitude : Z;
  wave : Wave.t
}.

Definition init (pitch : option string) (octave : Z)
    (duration_symbol tempo : string) (amplitude : Z) : result t :=
  tempo_bpm ← getitem TEMPOS tempo;
  let frequency := if truthy pitch then calculate_frequency pitch octave else 0 in
  duration ← calculate_duration tempo_bpm duration_symbol;
  let amplitude := if truthy pitch then amplitude else 0%Z in
  wave ← Wave.init frequency duration amplitude None;
  mret (mk pitch octave duration_symbol tempo_bpm frequency duration
           amplitude wave).
End Note.

Module Piano.
Record t : Type := mk { notes : list Note.t }.

Definition init : t := mk [].

Definition add_note (self : t) (note : Note.t) : t :=
  mk (notes self ++ [note]).

(** The [for note in self.notes] loop of [get_combined_wave]. *)
Fixpoint place_notes (notes : list Note.t) (combined_wave_data : list R)
    (current_index : Z) : result (list R) :=
  match notes with
  | [] => mret combined_wave_data
  | note :: rest =>
      let length := len (Wave.data (Note.wave note)) in
      combined_wave_data ←
        setitem_slice combined_wave_data current_index
          (current_index + length) (Wave.data (Note.wave note));
      place_notes rest combined_wave_data (current_index + length)
  end.

Definition get_combined_wave (self : t) : result (list R) :=
  let total_length :=
    foldr Z.add 0%Z ((fun note => len (Wave.data (Note.wave note))) <$> notes self) in
  combined_wave_data ← np_zeros total_length;
  place_notes (notes self) combined_wave_data 0.
End Piano.

Module Song.
(** The innermost loop of [load_and_play_song]: one note line. *)
Fixpoint play_line (piano : Piano.t) (tempo : string)
    (line : list note_info) : result Piano.t :=
  match line with
  | [] => mret piano
  | i :: rest =>
      note ← Note.init (info_pitch i) (info_octave i) (info_duration i)
               tempo AMPLITUDE;
      play_line (Piano.add_note piano note) tempo rest
  end.

Fixpoint play_lines (piano : Piano.t) (tempo : string)
    (lines : list (list note_info)) : result Piano.t :=
  match lines with
  | [] => mret piano
  | line :: rest =>
      piano ← play_line piano tempo line;
      play_lines piano tempo rest
  end.

Fixpoint play_tempos (piano : Piano.t) (tempos : list string)
    (lines : list (list note_info)) : result Piano.t :=
  match tempos with
  | [] => mret piano
  | tempo :: rest =>
      piano ← play_lines piano tempo lines;
      play_tempos piano rest lines
  end.

(** [load_and_play_song] on the parsed file: the tempo names of the first
    line and the items of every note line.  The result is the buffer
    handed to [write]; an exception leaves before [write] is reached. *)
Definition load_and_play_song (tempos : list string)
    (lines : list (list note_info)) : result (list R) :=
  piano ← play_tempos Piano.init tempos lines;
  Piano.get_combined_wave piano.
End Song.

End Honors1.

(** ** honors2.py, floats as real numbers *)

Module Honors2.

Module Wave.
Record t : Type := mk {
  frequency : R;
  duration : R;
  data : list R
}.

(** The [for i in range(4)] loop of [generate_wave]. *)
Fixpoint add_overtones (range : list nat) (frequency : R)
    (envelope ts wave : list R) : result (list R) :=
  match range with
  | [] => mret wave
  | i :: rest =>
      factor ← list_index OVERTONE_FACTORS i;
      let term :=
        zip_with (fun env tn =>
                    IZR AMPLITUDE * env * factor
                    * sin (2 * PI * INR i * frequency * tn))
                 envelope ts in
      add_overtones rest frequency envelope ts (zip_with Rplus wave term)
  end.

(** As in honors1, the number of samples is here the integer part of
    the exact product; [Rounded.Honors2.Wave.generate_wave] has the one of
    the rounded product. *)
Definition generate_wave (frequency duration : R) : result (list R) :=
  ts ← np_linspace 0 duration (int (IZR SAMPLERATE * duration));
  decay0 ← list_index DECAY_COEFFICIENTS 0;
  decay1 ← list_index DECAY_COEFFICIENTS 1;
  let envelope := (fun tn => exp (- decay0 - decay1 * tn)) <$> (ts : list R) in
  let wave := np_zeros_like ts in
  add_overtones (seq 0 4) frequency envelope ts wave.

Definition init (frequency duration : R) (data : option (list R))
  : result t :=
  d ← match data with
      | Some d => mret d
      | None => generate_wave frequency duration
      end;
  mret (mk frequency duration d).

Definition add (self other : t) : result t :=
  let max_length := Z.max (len (data self)) (len (data other)) in
  combined_data ← np_zeros max_length;
  combined_data ← iadd_slice combined_data 0 (len (data self)) (data self);
  combined_data ← iadd_slice combined_data 0 (len (data other)) (data other);
  init (frequency self + frequency other) (duration self) (Some combined_data).
End Wave.

Module Note.
Record t : Type := mk {
  pitch : option string;
  octave : Z;
  duration_symbol : string;
  tempo : Z;
  frequency : R;
  duration : R;
  wave : Wave.t
}.

Definition init (pitch : option string) (octave : Z)
    (duration_symbol tempo : string) : result t :=
  tempo_bpm ← getitem TEMPOS tempo;
  let frequency := if truthy pitch then calculate_frequency pitch octave else 0 in
  duration ← calculate_duration tempo_bpm duration_symbol;
  wave ← (if negb (truthy pitch) then Wave.init 0 duration None
          else Wave.init frequency duration None);
  mret (mk pitch octave duration_symbol tempo_bpm frequency duration wave).
End Note.

Module Piano.
Record t : Type := mk {
  notes_left : list (Note.t * R);
  notes_right : list (Note.t * R);
  time_left : R;
  time_right : R
}.

Definition init : t := mk [] [] 0 0.

Definition add_note_left (self : t) (note : Note.t) : t :=
  mk (notes_left self ++ [(note, time_left self)]) (notes_right self)
     (time_left self + Note.duration note) (time_right self).

Definition add_note_right (self : t) (note : Note.t) : t :=
  mk (notes_left self) (notes_right self ++ [(note, time_right self)])
     (time_left self) (time_right self + Note.duration note).

(** The [for note, start_time in notes] loop of [combine_notes], with
    the lengths and indices of exact arithmetic, for which the notes of a
    voice always fit the accumulator.  With rounded products a note can
    end one sample past it: lengths, indices and the outcome of the loop
    are those of [Rounded.Honors2.Piano.combine_loop]. *)
Fixpoint combine_loop (final_wave : Wave.t) (current_time : R)
    (notes : list (Note.t * R)) : result Wave.t :=
  match notes with
  | [] => mret final_wave
  | (note, start_time) :: rest =>
      let silence_duration := Rmax 0 (start_time - current_time) in
      zeros ← np_zeros (int (IZR SAMPLERATE * silence_duration));
      silence_wave ← Wave.init 0 silence_duration (Some zeros);
      final_wave ← Wave.add final_wave silence_wave;
      let note_wave_extended := np_zeros_like (Wave.data final_wave) in
      let start_index := int (IZR SAMPLERATE * start_time) in
      note_wave_extended ←
        setitem_slice note_wave_extended start_index
          (start_index + len (Wave.data (Note.wave note)))
          (Wave.data (Note.wave note));
      note_wave_to_add ←
        Wave.init (Note.frequency note) (Note.duration note)
          (Some note_wave_extended);
      final_wave ← Wave.add final_wave note_wave_to_add;
      combine_loop final_wave (start_time + Note.duration note) rest
  end.

Definition combine_notes (final_wave : Wave.t)
    (notes : list (Note.t * R)) : result Wave.t :=
  combine_loop final_wave 0 notes.

(** With the buffer length of exact arithmetic; the length and the
    outcome the interpreter obtains are those of
    [Rounded.Honors2.Piano.get_combined_wave_array]. *)
Definition get_combined_wave_array (self : t) : result (list R) :=
  let max_duration := Rmax (time_left self) (time_right self) in
  zeros ← np_zeros (int (IZR SAMPLERATE * max_duration));
  final_wave ← Wave.init 0 max_duration (Some zeros);
  final_wave ← combine_notes final_wave (notes_left self);
  final_wave ← combine_notes final_wave (notes_right self);
  mret (Wave.data final_wave).
End Piano.

Module Song.
Fixpoint process_notes (piano : Piano.t) (note_infos : list note_info)
    (tempo hand : string) : result Piano.t :=
  match note_infos with
  | [] => mret piano
  | i :: rest =>
      note ← Note.init (info_pitch i) (info_octave i) (info_duration i) tempo;
      let piano :=
        if String.eqb hand "r" then Piano.add_note_right piano note
        else if String.eqb hand "l" then Piano.add_note_left piano note
        else piano in
      process_notes piano rest tempo hand
  end.

(** The [for i in range(0, len(lines), 3)] loop: each block carries its
    right-hand line and its left-hand line. *)
Fixpoint play_blocks (piano : Piano.t) (tempo : string)
    (blocks : list (list note_info * list note_info)) : result Piano.t :=
  match blocks with
  | [] => mret piano
  | (right_hand_notes, left_hand_notes) :: rest =>
      piano ← process_notes piano right_hand_notes tempo "r";
      piano ← process_notes piano left_hand_notes tempo "l";
      play_blocks piano tempo rest
  end.

(** [load_and_play_song] on the parsed file and the tempo the user
    selected.  The result is the buffer handed to [write]; an exception
    leaves before [write] is reached. *)
Definition load_and_play_song (tempo_user : string)
    (blocks : list (list note_info * list note_info)) : result (list R) :=
  piano ← play_blocks Piano.init tempo_user blocks;
  Piano.get_combined_wave_array piano.
End Song.

End Honors2.

(** ** The two engines with binary64 times

    The same classes with [duration], the clocks and the start times as
    binary64 floats, the way the interpreter computes them: every
    product, quotient, sum and difference of times is rounded before
    [int] truncates it.  Frequencies and sample values stay real numbers
    (the value of a sample is taken at the real number its float instant
    stands for). *)

Module Rounded.
Import Float64.

(** The decimal literals of the source that are not integers are binary
    fractions ([3.5 = 7/2], [0.875 = 7/8], ...), written here as the
    quotient that produces them exactly; the triplet values are the
    quotients the source writes ([4.0/3], ...), rounded by the division. *)
Definition DURATION_MAP : gmap string float :=
  list_to_map
    [("WN"%string, of_int 4); ("DHN"%string, of_int 3);
     ("DDHN"%string, of_int 7 / of_int 2); ("HN"%string, of_int 2);
     ("HNT"%string, of_int 4 / of_int 3); ("QN"%string, of_int 1);
     ("QNT"%string, of_int 2 / of_int 3); ("DQN"%string, of_int 3 / of_int 2);
     ("DDQN"%string, of_int 7 / of_int 4); ("EN"%string, of_int 1 / of_int 2);
     ("DEN"%string, of_int 3 / of_int 4); ("ENT"%string, of_int 1 / of_int 3);
     ("DDEN"%string, of_int 7 / of_int 8); ("SN"%string, of_int 1 / of_int 4);
     ("DSN"%string, of_int 3 / of_int 8); ("SNT"%string, of_int 1 / of_int 6);
     ("TN"%string, of_int 1 / of_int 8);
     ("TNT"%string, of_int 1 / of_int 12)]%f64.

(** [a / b] on two [int]s. *)
Definition truediv (a b : Z) : result float :=
  if (b =? 0)%Z then Raise ZeroDivisionError
  else Ok (of_int a / of_int b)%f64.

Definition calculate_duration (tempo : Z) (duration_symbol : string)
  : result float :=
  beats_per_second ← truediv 60 tempo;
  duration_notation ← getitem DURATION_MAP duration_symbol;
  mret (duration_notation * beats_per_second)%f64.

(** Point [n] of [np.linspace(start, stop, num, endpoint=False)] as numpy
    evaluates it: [delta = stop - start], [step = delta / num],
    [y = arange(0, num) * step] (or [arange(0, num) / num * delta] when
    the step underflows to zero, [arange(0, num) * delta] when [num] is
    not positive), then [y += start]. *)
Definition linspace_point (start stop : float) (num : Z) (n : nat) : float :=
  let div := num in
  let delta := (stop - start)%f64 in
  let yn := of_int (Z.of_nat n) in
  let y :=
    if (0 <? div)%Z then
      let step := (delta / of_int div)%f64 in
      if eqb step zero then (yn / of_int div * delta)%f64
      else (yn * step)%f64
    else (yn * delta)%f64 in
  (y + start)%f64.

Definition np_linspace (start stop : float) (num : Z) : result (list float) :=
  if (num <? 0)%Z then Raise (ValueError "Number of samples must be non-negative")
  else Ok (linspace_point start stop num <$> seq 0 (Z.to_nat num)).

Module Honors1.

Module Wave.
Record t : Type := mk {
  amplitude : Z;
  frequency : R;
  duration : float;
  data : list R
}.

Definition generate_wave (amplitude : Z) (frequency : R) (duration : float)
  : result (list R) :=
  num ← to_int (of_int SAMPLERATE * duration)%f64;
  t ← np_linspace (of_int 0) duration num;
  mret ((fun tn => IZR amplitude * sin (2 * PI * frequency * to_R tn))
          <$> (t : list float)).

Definition init (frequency : R) (duration : float) (amplitude : Z)
    (data : option (list R)) : result t :=
  d ← match data with
      | None => generate_wave amplitude frequency duration
      | Some d => mret d
      end;
  mret (mk amplitude frequency duration d).
End Wave.

Module Note.
Record t : Type := mk {
  pitch : option string;
  octave : Z;
  duration_symbol : string;
  tempo : Z;
  frequency : R;
  duration : float;
  amplitude : Z;
  wave : Wave.t
}.

Definition init (pitch : option string) (octave : Z)
    (duration_symbol tempo : string) (amplitude : Z) : result t :=
  tempo_bpm ← getitem TEMPOS tempo;
  let frequency := if truthy pitch then calculate_frequency pitch octave else 0 in
  duration ← calculate_duration tempo_bpm duration_symbol;
  let amplitude := if truthy pitch then amplitude else 0%Z in
  wave ← Wave.init frequency duration amplitude None;
  mret (mk pitch octave duration_symbol tempo_bpm frequency duration
           amplitude wave).
End Note.

Module Piano.
Record t : Type := mk { notes : list Note.t }.

Definition init : t := mk [].

Definition add_note (self : t) (note : Note.t) : t :=
  mk (notes self ++ [note]).

(** The [for note in self.notes] loop of [get_combined_wave]. *)
Fixpoint place_notes (notes : list Note.t) (combined_wave_data : list R)
    (current_index : Z) : result (list R) :=
  match notes with
  | [] => mret combined_wave_data
  | note :: rest =>
      let length := len (Wave.data (Note.wave note)) in
      combined_wave_data ←
        setitem_slice combined_wave_data current_index
          (current_index + length) (Wave.data (Note.wave note));
      place_notes rest combined_wave_data (current_index + length)
  end.

Definition get_combined_wave (self : t) : result (list R) :=
  let total_length :=
    foldr Z.add 0%Z ((fun note => len (Wave.data (Note.wave note))) <$> notes self) in
  combined_wave_data ← np_zeros total_length;
  place_notes (notes self) combined_wave_data 0.
End Piano.

Module Song.
Fixpoint play_line (piano : Piano.t) (tempo : string)
    (line : list note_info) : result Piano.t :=
  match line with
  | [] => mret piano
  | i :: rest =>
      note ← Note.init (info_pitch i) (info_octave i) (info_duration i)
               tempo AMPLITUDE;
      play_line (Piano.add_note piano note) tempo rest
  end.

Fixpoint play_lines (piano : Piano.t) (tempo : string)
    (lines : list (list note_info)) : result Piano.t :=
  match lines with
  | [] => mret piano
  | line :: rest =>
      piano ← play_line piano tempo line;
      play_lines piano tempo rest
  end.

Fixpoint play_tempos (piano : Piano.t) (tempos : list string)
    (lines : list (list note_info)) : result Piano.t :=
  match tempos with
  | [] => mret piano
  | tempo :: rest =>
      piano ← play_lines piano tempo lines;
      play_tempos piano rest lines
  end.

Definition load_and_play_song (tempos : list string)
    (lines : list (list note_info)) : result (list R) :=
  piano ← play_tempos Piano.init tempos lines;
  Piano.get_combined_wave piano.
End Song.

End Honors1.

Module Honors2.

Module Wave.
Record t : Type := mk {
  frequency : R;
  duration : float;
  data : list R
}.

Definition generate_wave (frequency : R) (duration : float)
  : result (list R) :=
  num ← to_int (of_int SAMPLERATE * duration)%f64;
  t ← np_linspace (of_int 0) duration num;
  let ts := to_R <$> (t : list float) in
  decay0 ← list_index DECAY_COEFFICIENTS 0;
  decay1 ← list_index DECAY_COEFFICIENTS 1;
  let envelope := (fun tn => exp (- decay0 - decay1 * tn)) <$> (ts : list R) in
  let wave := np_zeros_like ts in
  Honors2.Wave.add_overtones (seq 0 4) frequency envelope ts wave.

Definition init (frequency : R) (duration : float) (data : option (list R))
  : result t :=
  d ← match data with
      | Some d => mret d
      | None => generate_wave frequency duration
      end;
  mret (mk frequency duration d).

Definition add (self other : t) : result t :=
  let max_length := Z.max (len (data self)) (len (data other)) in
  combined_data ← np_zeros max_length;
  combined_data ← iadd_slice combined_data 0 (len (data self)) (data self);
  combined_data ← iadd_slice combined_data 0 (len (data other)) (data other);
  init (frequency self + frequency other) (duration self) (Some combined_data).
End Wave.

Module Note.
Record t : Type := mk {
  pitch : option string;
  octave : Z;
  duration_symbol : string;
  tempo : Z;
  frequency : R;
  duration : float;
  wave : Wave.t
}.

Definition init (pitch : option string) (octave : Z)
    (duration_symbol tempo : string) : result t :=
  tempo_bpm ← getitem TEMPOS tempo;
  let frequency := if truthy pitch then calculate_frequency pitch octave else 0 in
  duration ← calculate_duration tempo_bpm duration_symbol;
  wave ← (if negb (truthy pitch) then Wave.init 0 duration None
          else Wave.init frequency duration None);
  mret (mk pitch octave duration_symbol tempo_bpm frequency duration wave).
End Note.

Module Piano.
Record t : Type := mk {
  notes_left : list (Note.t * float);
  notes_right : list (Note.t * float);
  time_left : float;
  time_right : float
}.

Definition init : t := mk [] [] (of_int 0) (of_int 0).

Definition add_note_left (self : t) (note : Note.t) : t :=
  mk (notes_left self ++ [(note, time_left self)]) (notes_right self)
     (time_left self + Note.duration note)%f64 (time_right self).

Definition add_note_right (self : t) (note : Note.t) : t :=
  mk (notes_left self) (notes_right self ++ [(note, time_right self)])
     (time_left self) (time_right self + Note.duration note)%f64.

(** The [for note, start_time in notes] loop of [combine_notes]. *)
Fixpoint combine_loop (final_wave : Wave.t) (current_time : float)
    (notes : list (Note.t * float)) : result Wave.t :=
  match notes with
  | [] => mret final_wave
  | (note, start_time) :: rest =>
      let silence_duration := max (of_int 0) (start_time - current_time)%f64 in
      num ← to_int (of_int SAMPLERATE * silence_duration)%f64;
      zeros ← np_zeros num;
      silence_wave ← Wave.init 0 silence_duration (Some zeros);
      final_wave ← Wave.add final_wave silence_wave;
      let note_wave_extended := np_zeros_like (Wave.data final_wave) in
      start_index ← to_int (of_int SAMPLERATE * start_time)%f64;
      note_wave_extended ←
        setitem_slice note_wave_extended start_index
          (start_index + len (Wave.data (Note.wave note)))
          (Wave.data (Note.wave note));
      note_wave_to_add ←
        Wave.init (Note.frequency note) (Note.duration note)
          (Some note_wave_extended);
      final_wave ← Wave.add final_wave note_wave_to_add;
      combine_loop final_wave (start_time + Note.duration note)%f64 rest
  end.

Definition combine_notes (final_wave : Wave.t)
    (notes : list (Note.t * float)) : result Wave.t :=
  combine_loop final_wave (of_int 0) notes.

Definition get_combined_wave_array (self : t) : result (list R) :=
  let max_duration := max (time_left self) (time_right self) in
  num ← to_int (of_int SAMPLERATE * max_duration)%f64;
  zeros ← np_zeros num;
  final_wave ← Wave.init 0 max_duration (Some zeros);
  final_wave ← combine_notes final_wave (notes_left self);
  final_wave ← combine_notes final_wave (notes_right self);
  mret (Wave.data final_wave).
End Piano.

End Honors2.

End Rounded.

(** ** Notions used to state the properties *)

(** Sample [i] of a buffer, zero outside of it (zero padding). *)
Definition sample (a : list R) (i : nat) : R := default 0 (a !! i).

(** [z] is an integer nearest to [x]: what any rounding of [x] to the
    nearest integer returns, whatever it does with ties. *)
Definition nearest_integer (z : Z) (x : R) : Prop := Rabs (IZR z - x) <= 1 / 2.

(** Sample [i] of the buffer [v] shifted to begin at [start_index]. *)
Definition placed (start_index : nat) (v : list R) (i : nat) : R :=
  if decide (start_index ≤ i)%nat then sample v (i - start_index) else 0.

(** The twelve pitch classes as the specification lists them. *)
Definition spec_pitch_class (p : string) : option Z :=
  if String.eqb p "C" then Some 0%Z else
  if String.eqb p "c" then Some 1%Z else
  if String.eqb p "D" then Some 2%Z else
  if String.eqb p "d" then Some 3%Z else
  if String.eqb p "E" then Some 4%Z else
  if String.eqb p "F" then Some 5%Z else
  if String.eqb p "f" then Some 6%Z else
  if String.eqb p "G" then Some 7%Z else
  if String.eqb p "g" then Some 8%Z else
  if String.eqb p "A" then Some 9%Z else
  if String.eqb p "a" then Some 10%Z else
  if String.eqb p "B" then Some 11%Z else None.

(** The weighted sum of harmonics [k] in [ks] at time [t], and the sample
    of the additive variant as the specification writes it. *)
Definition harmonic_sum (ks : list nat) (f t : R) : R :=
  foldr Rplus 0
    ((fun k => sample OVERTONE_FACTORS k * sin (2 * PI * INR k * f * t)) <$> ks).

Definition additive_sample (f t : R) : R :=
  IZR AMPLITUDE
  * exp (- sample DECAY_COEFFICIENTS 0 - sample DECAY_COEFFICIENTS 1 * t)
  * harmonic_sum (seq 0 4) f t.

(** Sampling instant [n] of a note of duration [d] in the source:
    [np.linspace(0, d, int(SAMPLERATE * d), endpoint=False)[n]]. *)
Definition instant (d : R) (n : nat) : R :=
  INR n * ((d - 0) / IZR (int (IZR SAMPLERATE * d))) + 0.

Module Voice.
Import Honors2.

(** A note as the constructor returns it. *)
Definition built (n : Note.t) : Prop :=
  ∃ pitch octave duration_symbol tempo,
    Note.init pitch octave duration_symbol tempo = Ok n.

(** Pianos obtained from [Piano()] by adding constructed notes to either
    hand, in any interleaving. *)
Inductive composed : Piano.t → Prop :=
  | composed_init : composed Piano.init
  | composed_left p n :
      composed p → built n → composed (Piano.add_note_left p n)
  | composed_right p n :
      composed p → built n → composed (Piano.add_note_right p n).

(** Sum of the durations of a sequence of notes. *)
Definition total_duration (notes : list Note.t) : R :=
  foldr (fun n acc => Note.duration n + acc) 0 notes.

(** Back-to-back placement of [notes] from time [clock] on. *)
Fixpoint schedule (clock : R) (notes : list Note.t) : list (Note.t * R) :=
  match notes with
  | [] => []
  | note :: rest => (note, clock) :: schedule (clock + Note.duration note) rest
  end.

End Voice.

(** The sample buffers of a sequence of honors1 notes, in order. *)
Definition note_buffers (notes : list Honors1.Note.t) : list (list R) :=
  (fun note => Honors1.Wave.data (Honors1.Note.wave note)) <$> notes.

(** Two notes used as concrete inputs: what [Note("C", 4, "QN", "Adagio")]
    and [Note("E", 4, "QN", "Presto")] return in honors2 (one second of
    middle C; one beat of E at 170 beats per minute). *)
Definition note_C4_QN_Adagio : Honors2.Note.t :=
  let f := calculate_frequency (Some "C"%string) 4 in
  let d := 1.0 * (60 / IZR 60) in
  Honors2.Note.mk (Some "C"%string) 4 "QN" 60 f d
    (Honors2.Wave.mk f d
       ((fun n => additive_sample f (instant d n))
          <$> seq 0 (Z.to_nat (int (IZR SAMPLERATE * d))))).


(** [x] lies within [-B, B]. *)
Definition within (B x : R) : Prop := - B <= x <= B.

(** An item of a note line that the constructor accepts at [tempo]. *)
Definition valid_item (tempo : string) (i : note_info) : Prop :=
  is_Some (TEMPOS !! tempo) ∧ is_Some (DURATION_MAP !! info_duration i).

(** [int(SAMPLERATE * x)] on a float [x]: the number of samples of a
    duration, the index of a start time. *)
Definition rate_index (x : Float64.float) : result Z :=
  Float64.to_int (Float64.of_int SAMPLERATE * x)%f64.

(** Sampling instant [n] of a wave of duration [d] and [num] samples:
    [np.linspace(0, d, num, endpoint=False)[n]]. *)
Definition sampling_instant (d : Float64.float) (num : Z) (n : nat)
  : Float64.float :=
  Rounded.linspace_point (Float64.of_int 0) d num n.

(** Number of samples of the note that item [i] of a note line becomes
    at [tempo]: [int(SAMPLERATE * (beats * (60 / bpm)))] on floats
    (0 when the constructor rejects the item). *)
Definition item_length (tempo : string) (i : note_info) : nat :=
  match TEMPOS !! tempo, Rounded.DURATION_MAP !! info_duration i with
  | Some bpm, Some beats =>
      match rate_index (beats * (Float64.of_int 60 / Float64.of_int bpm))%f64 with
      | Ok num => Z.to_nat num
      | Raise _ => 0%nat
      end
  | _, _ => 0%nat
  end.

(** The sample buffers of a sequence of honors1 notes, in order. *)
Definition rounded_note_buffers (notes : list Rounded.Honors1.Note.t)
  : list (list R) :=
  (fun note => Rounded.Honors1.Wave.data (Rounded.Honors1.Note.wave note))
    <$> notes.

Module Timeline.

(** A note as the constructor returns it. *)
Definition built (n : Rounded.Honors2.Note.t) : Prop :=
  ∃ pitch octave duration_symbol tempo,
    Rounded.Honors2.Note.init pitch octave duration_symbol tempo = Ok n.

(** Pianos obtained from [Piano()] by adding constructed notes to either
    hand, in any interleaving. *)
Inductive composed : Rounded.Honors2.Piano.t → Prop :=
  | composed_init : composed Rounded.Honors2.Piano.init
  | composed_left p n :
      composed p → built n → composed (Rounded.Honors2.Piano.add_note_left p n)
  | composed_right p n :
      composed p → built n → composed (Rounded.Honors2.Piano.add_note_right p n).

(** Index of the first sample of a note placed at [start_time]
    (0 when [int] raises). *)
Definition start_index (start_time : Float64.float) : nat :=
  match rate_index start_time with
  | Ok z => Z.to_nat z
  | Raise _ => 0%nat
  end.



(** What one voice adds to sample [i] of the rendered buffer: every note
    of the voice shifted to the index of its start time. *)
Definition contribution
    (notes : list (Rounded.Honors2.Note.t * Float64.float)) (i : nat) : R :=
  foldr (fun '(note, start_time) acc =>
           placed (start_index start_time)
             (Rounded.Honors2.Wave.data (Rounded.Honors2.Note.wave note)) i
           + acc)
        0 notes.

(** Back-to-back placement of [notes] from time [clock] on, and the
    clock it ends at: the float sums [add_note_left] and
    [add_note_right] accumulate. *)
Fixpoint schedule (clock : Float64.float) (notes : list Rounded.Honors2.Note.t)
  : list (Rounded.Honors2.Note.t * Float64.float) :=
  match notes with
  | [] => []
  | note :: rest =>
      (note, clock)
      :: schedule (clock + Rounded.Honors2.Note.duration note)%f64 rest
  end.


End Timeline.

(** * Properties *)

(** ** Truncation *)

Lemma int_floor (x : R) : 0 <= x → int x = Zfloor x.
Proof. intros Hx. unfold int. destruct (Rle_dec 0 x); [done | lra]. Qed.

Lemma int_zero : int 0 = 0%Z.
Proof. rewrite int_floor by lra. apply (ZfloorZ 0). Qed.

Lemma int_nonneg (x : R) : 0 <= x → (0 ≤ int x)%Z.
Proof.
  intros Hx. rewrite int_floor by done.
  apply Zfloor_lub. simpl. lra.
Qed.


Lemma int_add (x y : R) : 0 <= x → 0 <= y → (int x + int y ≤ int (x + y))%Z.
Proof.
  intros Hx Hy. rewrite !int_floor by lra.
  apply Zfloor_lub. rewrite plus_IZR.
  pose proof (Zfloor_bound x). pose proof (Zfloor_bound y). lra.
Qed.


Lemma samplerate_pos : 0 < IZR SAMPLERATE.
Proof. unfold SAMPLERATE. lra. Qed.

Lemma int_rate_nonneg (d : R) : 0 <= d → (0 ≤ int (IZR SAMPLERATE * d))%Z.
Proof.
  intros Hd. apply int_nonneg. pose proof samplerate_pos. nra.
Qed.

(** ** Buffers *)

Lemma sample_lookup (a : list R) (i : nat) (x : R) :
  a !! i = Some x → sample a i = x.
Proof. unfold sample. by intros ->. Qed.

Lemma sample_ge (a : list R) (i : nat) : (length a ≤ i)%nat → sample a i = 0.
Proof. intros H. unfold sample. by rewrite lookup_ge_None_2. Qed.

Lemma sample_nil (i : nat) : sample [] i = 0.
Proof. done. Qed.

Lemma sample_replicate_zero (n i : nat) : sample (replicate n 0) i = 0.
Proof.
  unfold sample. destruct (replicate n 0 !! i) as [x|] eqn:E; [|done].
  by apply lookup_replicate in E as [-> _].
Qed.

Lemma sample_app_l (a b : list R) (i : nat) :
  (i < length a)%nat → sample (a ++ b) i = sample a i.
Proof. intros H. unfold sample. by rewrite lookup_app_l. Qed.

Lemma sample_app_r (a b : list R) (i : nat) :
  (length a ≤ i)%nat → sample (a ++ b) i = sample b (i - length a).
Proof. intros H. unfold sample. by rewrite lookup_app_r. Qed.

Lemma sample_take (a : list R) (n i : nat) :
  (i < n)%nat → sample (take n a) i = sample a i.
Proof. intros H. unfold sample. by rewrite lookup_take_lt. Qed.

Lemma sample_drop (a : list R) (n i : nat) :
  sample (drop n a) i = sample a (n + i).
Proof. unfold sample. by rewrite lookup_drop. Qed.

Lemma sample_zip_plus (a b : list R) (i : nat) :
  length a = length b →
  sample (zip_with Rplus a b) i = sample a i + sample b i.
Proof.
  intros Hlen. unfold sample. rewrite lookup_zip_with.
  destruct (a !! i) as [x|] eqn:Ea; simpl.
  - destruct (b !! i) as [y|] eqn:Eb; simpl; [done|].
    apply lookup_ge_None in Eb. apply lookup_lt_Some in Ea. lia.
  - apply lookup_ge_None in Ea.
    rewrite (lookup_ge_None_2 b) by lia. simpl. lra.
Qed.

(** Two buffers of one length with the same samples are equal. *)
Lemma sample_ext (a b : list R) :
  length a = length b → (∀ i, sample a i = sample b i) → a = b.
Proof.
  intros Hlen Hs. apply list_eq. intros i. specialize (Hs i).
  unfold sample in Hs.
  destruct (a !! i) as [x|] eqn:Ea, (b !! i) as [y|] eqn:Eb; simpl in Hs.
  - by subst.
  - apply lookup_lt_Some in Ea. apply lookup_ge_None in Eb. lia.
  - apply lookup_ge_None in Ea. apply lookup_lt_Some in Eb. lia.
  - done.
Qed.

Lemma len_nonneg {A} (a : list A) : (0 ≤ len a)%Z.
Proof. unfold len. lia. Qed.

Lemma np_zeros_ok (n : Z) :
  (0 ≤ n)%Z → np_zeros n = Ok (replicate (Z.to_nat n) 0).
Proof.
  intros Hn. unfold np_zeros.
  destruct (n <? 0)%Z eqn:E; [lia | done].
Qed.

Lemma broadcast_to_same (v : list R) : broadcast_to v (length v) = Ok v.
Proof. unfold broadcast_to. by rewrite decide_True. Qed.

Lemma broadcast_to_short (v : list R) (m : nat) :
  (m < length v)%nat → (2 ≤ length v)%nat →
  broadcast_to v m = Raise (ValueError "could not broadcast input array").
Proof.
  intros Hm Hv. unfold broadcast_to. rewrite decide_False by lia.
  destruct v as [|x [|y v]]; simpl in *; [lia | lia | done].
Qed.

Lemma slice_bounds_within (s n L : Z) :
  (0 ≤ s)%Z → (0 ≤ n)%Z → (s + n ≤ L)%Z →
  slice_bounds s (s + n) L = (Z.to_nat s, Z.to_nat n).
Proof.
  intros Hs Hn HL. unfold slice_bounds, adjust_index.
  destruct (s <? 0)%Z eqn:E1; [lia|].
  destruct (s + n <? 0)%Z eqn:E2; [lia|].
  f_equal; lia.
Qed.

(** An end past the array: the slice stops at the end of the array, and
    is empty when it starts past it. *)
Lemma slice_bounds_overrun (s n L : Z) :
  (0 ≤ s)%Z → (0 ≤ L < s + n)%Z →
  slice_bounds s (s + n) L = (Z.to_nat (Z.min s L), Z.to_nat (L - Z.min s L)).
Proof.
  intros Hs HL. unfold slice_bounds, adjust_index.
  destruct (s <? 0)%Z eqn:E1; [lia|].
  destruct (s + n <? 0)%Z eqn:E2; [lia|].
  f_equal; lia.
Qed.

Lemma setitem_slice_within (a v : list R) (s : Z) :
  (0 ≤ s)%Z → (s + len v ≤ len a)%Z →
  setitem_slice a s (s + len v) v
  = Ok (take (Z.to_nat s) a ++ v ++ drop (Z.to_nat s + length v) a).
Proof.
  intros Hs Hfit. unfold setitem_slice.
  rewrite slice_bounds_within by (auto using len_nonneg).
  unfold len. rewrite Nat2Z.id, broadcast_to_same. done.
Qed.

Lemma setitem_slice_overrun (a v : list R) (s : Z) :
  (0 ≤ s)%Z → (len a < s + len v)%Z → (2 ≤ len v)%Z →
  setitem_slice a s (s + len v) v
  = Raise (ValueError "could not broadcast input array").
Proof.
  intros Hs Hover Hv. unfold setitem_slice.
  rewrite slice_bounds_overrun by (pose proof (len_nonneg a); lia).
  unfold len in *. rewrite broadcast_to_short by lia. done.
Qed.

Lemma iadd_slice_prefix (a v : list R) :
  (length v ≤ length a)%nat →
  iadd_slice a 0 (len v) v
  = Ok (zip_with Rplus (take (length v) a) v ++ drop (length v) a).
Proof.
  intros Hlen. unfold iadd_slice.
  replace (len v) with (0 + len v)%Z by lia.
  rewrite slice_bounds_within by (unfold len; lia).
  unfold len. rewrite Nat2Z.id, broadcast_to_same. simpl.
  by rewrite drop_0.
Qed.

Lemma length_add_prefix (a v : list R) :
  (length v ≤ length a)%nat →
  length (zip_with Rplus (take (length v) a) v ++ drop (length v) a)
  = length a.
Proof.
  intros Hlen. rewrite length_app, length_zip_with, length_take, length_drop. lia.
Qed.

Lemma sample_add_prefix (a v : list R) (i : nat) :
  (length v ≤ length a)%nat →
  sample (zip_with Rplus (take (length v) a) v ++ drop (length v) a) i
  = sample a i + sample v i.
Proof.
  intros Hlen.
  assert (Hz : length (zip_with Rplus (take (length v) a) v) = length v)
    by (rewrite length_zip_with, length_take; lia).
  destruct (decide (i < length v)%nat) as [Hi|Hi].
  - rewrite sample_app_l by lia.
    rewrite sample_zip_plus by (rewrite length_take; lia).
    by rewrite sample_take.
  - rewrite sample_app_r by lia. rewrite Hz, sample_drop.
    rewrite (sample_ge v) by lia.
    replace (length v + (i - length v))%nat with i by lia. lra.
Qed.

Lemma sample_setitem (a v : list R) (s i : nat) :
  (s + length v ≤ length a)%nat →
  sample (take s (replicate (length a) 0) ++ v
          ++ drop (s + length v) (replicate (length a) 0)) i
  = placed s v i.
Proof.
  intros Hfit. unfold placed.
  assert (Ht : length (take s (replicate (length a) 0)) = s)
    by (rewrite length_take, length_replicate; lia).
  destruct (decide (s ≤ i)%nat) as [Hi|Hi].
  - rewrite sample_app_r by lia. rewrite Ht.
    destruct (decide (i - s < length v)%nat) as [Hv|Hv].
    + by rewrite sample_app_l.
    + rewrite sample_app_r by lia.
      rewrite sample_drop, sample_replicate_zero.
      by rewrite sample_ge by lia.
  - rewrite sample_app_l by lia.
    rewrite sample_take by lia. apply sample_replicate_zero.
Qed.

(** ** The error monad *)

Lemma bind_Ok {A B} (a : A) (k : A → result B) : (Ok a ≫= k) = k a.
Proof. done. Qed.

Lemma bind_Raise {A B} (e : exn) (k : A → result B) : (Raise e ≫= k) = Raise e.
Proof. done. Qed.

Lemma bind_Ok_inv {A B} (m : result A) (k : A → result B) (b : B) :
  (m ≫= k) = Ok b → ∃ a, m = Ok a ∧ k a = Ok b.
Proof. destruct m as [a|e]; [eauto | done]. Qed.

(** ** Waveform addition *)

(** The three array statements of [Wave.__add__], shared by both files. *)
Lemma combined_data_ok (a b : list R) :
  ∃ r,
    (np_zeros (Z.max (len a) (len b)) ≫= λ c,
       iadd_slice c 0 (len a) a ≫= λ c, iadd_slice c 0 (len b) b) = Ok r
    ∧ length r = (length a `max` length b)%nat
    ∧ ∀ i, sample r i = sample a i + sample b i.
Proof.
  rewrite np_zeros_ok by (unfold len; lia).
  rewrite bind_Ok.
  set (z := replicate (Z.to_nat (Z.max (len a) (len b))) 0).
  assert (Hz : length z = (length a `max` length b)%nat)
    by (subst z; rewrite length_replicate; unfold len; lia).
  rewrite iadd_slice_prefix by lia. rewrite bind_Ok.
  set (c := zip_with Rplus (take (length a) z) a ++ drop (length a) z).
  assert (Hc : length c = length z) by (apply length_add_prefix; lia).
  rewrite iadd_slice_prefix by lia.
  eexists. split; [done|]. split.
  - rewrite length_add_prefix by lia. lia.
  - intros i. rewrite sample_add_prefix by lia.
    subst c. rewrite sample_add_prefix by lia.
    subst z. rewrite sample_replicate_zero. lra.
Qed.

Lemma honors1_add_ok (self other : Honors1.Wave.t) :
  ∃ w,
    Honors1.Wave.add self other = Ok w
    ∧ length (Honors1.Wave.data w)
      = (length (Honors1.Wave.data self) `max` length (Honors1.Wave.data other))%nat
    ∧ (∀ i, sample (Honors1.Wave.data w) i
            = sample (Honors1.Wave.data self) i + sample (Honors1.Wave.data other) i)
    ∧ Honors1.Wave.frequency w = Honors1.Wave.frequency self
    ∧ Honors1.Wave.duration w = Honors1.Wave.duration self.
Proof.
  destruct (combined_data_ok (Honors1.Wave.data self) (Honors1.Wave.data other))
    as (r & Hr & Hlen & Hs).
  exists (Honors1.Wave.mk AMPLITUDE (Honors1.Wave.frequency self)
            (Honors1.Wave.duration self) r).
  split; [|done].
  unfold Honors1.Wave.add. cbv zeta.
  destruct (np_zeros _) as [z|e]; [|done]. rewrite bind_Ok in Hr; rewrite bind_Ok.
  destruct (iadd_slice z _ _ _) as [c|e]; [|done]. rewrite bind_Ok in Hr; rewrite bind_Ok.
  by rewrite Hr.
Qed.

Lemma honors2_add_ok (self other : Honors2.Wave.t) :
  ∃ w,
    Honors2.Wave.add self other = Ok w
    ∧ length (Honors2.Wave.data w)
      = (length (Honors2.Wave.data self) `max` length (Honors2.Wave.data other))%nat
    ∧ (∀ i, sample (Honors2.Wave.data w) i
            = sample (Honors2.Wave.data self) i + sample (Honors2.Wave.data other) i)
    ∧ Honors2.Wave.frequency w
      = Honors2.Wave.frequency self + Honors2.Wave.frequency other
    ∧ Honors2.Wave.duration w = Honors2.Wave.duration self.
Proof.
  destruct (combined_data_ok (Honors2.Wave.data self) (Honors2.Wave.data other))
    as (r & Hr & Hlen & Hs).
  exists (Honors2.Wave.mk
            (Honors2.Wave.frequency self + Honors2.Wave.frequency other)
            (Honors2.Wave.duration self) r).
  split; [|done].
  unfold Honors2.Wave.add. cbv zeta.
  destruct (np_zeros _) as [z|e]; [|done]. rewrite bind_Ok in Hr; rewrite bind_Ok.
  destruct (iadd_slice z _ _ _) as [c|e]; [|done]. rewrite bind_Ok in Hr; rewrite bind_Ok.
  by rewrite Hr.
Qed.

(** C5.  In both files [a + b] succeeds for any two waves; its buffer has
    [max(len(a), len(b))] samples; sample [i] is the sum of the two
    zero-padded samples at [i]; and the buffers of [a + b] and [b + a]
    are equal. *)
Theorem wave_add_pointwise_commutative :
  (∀ a b : Honors1.Wave.t,
     ∃ ab ba,
       Honors1.Wave.add a b = Ok ab ∧ Honors1.Wave.add b a = Ok ba
       ∧ len (Honors1.Wave.data ab)
         = Z.max (len (Honors1.Wave.data a)) (len (Honors1.Wave.data b))
       ∧ (∀ i, sample (Honors1.Wave.data ab) i
               = sample (Honors1.Wave.data a) i + sample (Honors1.Wave.data b) i)
       ∧ Honors1.Wave.data ab = Honors1.Wave.data ba)
  ∧ (∀ a b : Honors2.Wave.t,
     ∃ ab ba,
       Honors2.Wave.add a b = Ok ab ∧ Honors2.Wave.add b a = Ok ba
       ∧ len (Honors2.Wave.data ab)
         = Z.max (len (Honors2.Wave.data a)) (len (Honors2.Wave.data b))
       ∧ (∀ i, sample (Honors2.Wave.data ab) i
               = sample (Honors2.Wave.data a) i + sample (Honors2.Wave.data b) i)
       ∧ Honors2.Wave.data ab = Honors2.Wave.data ba).
Proof.
  split; intros a b.
  - destruct (honors1_add_ok a b) as (ab & Hab & Hl1 & Hs1 & _).
    destruct (honors1_add_ok b a) as (ba & Hba & Hl2 & Hs2 & _).
    exists ab, ba. repeat split; try done.
    + unfold len. lia.
    + apply sample_ext; [lia|]. intros i. rewrite Hs1, Hs2. lra.
  - destruct (honors2_add_ok a b) as (ab & Hab & Hl1 & Hs1 & _).
    destruct (honors2_add_ok b a) as (ba & Hba & Hl2 & Hs2 & _).
    exists ab, ba. repeat split; try done.
    + unfold len. lia.
    + apply sample_ext; [lia|]. intros i. rewrite Hs1, Hs2. lra.
Qed.

(** ** Waveform generation *)

Lemma np_linspace_ok (d : R) (num : Z) :
  (0 ≤ num)%Z →
  np_linspace 0 d num
  = Ok ((fun n : nat => INR n * ((d - 0) / IZR num) + 0) <$> seq 0 (Z.to_nat num)).
Proof.
  intros Hn. unfold np_linspace. destruct (num <? 0)%Z eqn:E; [lia | done].
Qed.

Lemma np_linspace_instants (d : R) :
  0 <= d →
  np_linspace 0 d (int (IZR SAMPLERATE * d))
  = Ok (instant d <$> seq 0 (Z.to_nat (int (IZR SAMPLERATE * d)))).
Proof. intros Hd. by rewrite np_linspace_ok by (by apply int_rate_nonneg). Qed.

(** The sine variant: sample [n] is [amplitude * sin(2 pi f t_n)]. *)
Lemma honors1_generate_wave_eq (a : Z) (f d : R) :
  0 <= d →
  Honors1.Wave.generate_wave a f d
  = Ok ((fun n => IZR a * sin (2 * PI * f * instant d n))
          <$> seq 0 (Z.to_nat (int (IZR SAMPLERATE * d)))).
Proof.
  intros Hd. unfold Honors1.Wave.generate_wave.
  rewrite np_linspace_instants by done. rewrite bind_Ok.
  by rewrite <- list_fmap_compose.
Qed.

(** The four passes of the overtone loop add up to the closed form. *)
Lemma add_overtones_eq (f : R) (ts : list R) :
  Honors2.Wave.add_overtones (seq 0 4) f
    ((fun tn => exp (- (0.25656511) - 1.64549261 * tn)) <$> ts) ts
    (replicate (length ts) 0)
  = Ok (additive_sample f <$> ts).
Proof.
  induction ts as [|t ts IH]; [done|].
  simpl in IH |- *. injection IH as IH. do 2 f_equal; [|exact IH].
  unfold additive_sample, harmonic_sum, sample. simpl. ring.
Qed.

Lemma honors2_generate_wave_eq (f d : R) :
  0 <= d →
  Honors2.Wave.generate_wave f d
  = Ok ((fun n => additive_sample f (instant d n))
          <$> seq 0 (Z.to_nat (int (IZR SAMPLERATE * d)))).
Proof.
  intros Hd. unfold Honors2.Wave.generate_wave.
  rewrite np_linspace_instants by done. rewrite bind_Ok.
  change (list_index DECAY_COEFFICIENTS 0) with (Ok 0.25656511).
  change (list_index DECAY_COEFFICIENTS 1) with (Ok 1.64549261).
  rewrite !bind_Ok. unfold np_zeros_like.
  rewrite add_overtones_eq. by rewrite <- list_fmap_compose.
Qed.

Lemma length_fmap_seq {A} (g : nat → A) (n : nat) : length (g <$> seq 0 n) = n.
Proof. by rewrite length_fmap, length_seq. Qed.

Lemma lookup_fmap_seq {A} (g : nat → A) (n i : nat) :
  (i < n)%nat → (g <$> seq 0 n) !! i = Some (g i).
Proof. intros Hi. by rewrite list_lookup_fmap, lookup_seq_lt. Qed.

(** The term of harmonic 0 vanishes: only harmonics 1, 2, 3 sound. *)
Lemma harmonic_zero (f t : R) :
  sample OVERTONE_FACTORS 0 * sin (2 * PI * INR 0 * f * t) = 0.
Proof.
  change (INR 0) with 0.
  replace (2 * PI * 0 * f * t) with 0 by ring. rewrite sin_0. apply Rmult_0_r.
Qed.

Lemma harmonic_sum_audible (f t : R) :
  harmonic_sum (seq 0 4) f t = harmonic_sum (seq 1 3) f t.
Proof.
  unfold harmonic_sum.
  change (seq 0 4) with (0%nat :: seq 1 3). rewrite fmap_cons.
  change (foldr Rplus 0 (?x :: ?l)) with (x + foldr Rplus 0 l).
  rewrite harmonic_zero. apply Rplus_0_l.
Qed.

(** ** The fixed tables *)

Lemma pitch_classes_spec (p : string) :
  PITCH_CLASSES !! p = spec_pitch_class p.
Proof.
  unfold spec_pitch_class, PITCH_CLASSES.
  repeat (rewrite list_to_map_cons;
          match goal with
          | |- <[?k:=_]> _ !! _ = _ =>
              destruct (String.eqb_spec p k) as [->|?];
              [by rewrite lookup_insert_eq | rewrite lookup_insert_ne by done]
          end).
  apply lookup_empty.
Qed.

Lemma pitch_class_nonempty (p : string) (k : Z) :
  spec_pitch_class p = Some k → truthy (Some p) = true.
Proof. by destruct p. Qed.

Lemma tempos_positive (tempo : string) (bpm : Z) :
  TEMPOS !! tempo = Some bpm → (0 < bpm)%Z.
Proof.
  revert tempo bpm. apply map_Forall_lookup. unfold TEMPOS.
  repeat (rewrite list_to_map_cons; apply map_Forall_insert_2; [lia|]).
  rewrite list_to_map_nil. apply map_Forall_empty.
Qed.

Lemma duration_map_positive (duration_symbol : string) (beats : R) :
  DURATION_MAP !! duration_symbol = Some beats → 0 < beats.
Proof.
  revert duration_symbol beats. apply map_Forall_lookup. unfold DURATION_MAP.
  repeat (rewrite list_to_map_cons; apply map_Forall_insert_2; [lra|]).
  rewrite list_to_map_nil. apply map_Forall_empty.
Qed.

(** ** Note frequency *)

Lemma calculate_frequency_silence (pitch : option string) (octave : Z) :
  truthy pitch = false → calculate_frequency pitch octave = 0.
Proof. intros H. unfold calculate_frequency. by rewrite H. Qed.

Lemma calculate_frequency_pitched (p : string) (octave : Z) :
  truthy (Some p) = true →
  calculate_frequency (Some p) octave
  = 262 * Rpower 2 (IZR (default 0%Z (spec_pitch_class p)) / 12)
    * powerRZ 2 (octave - 4).
Proof.
  intros H. unfold calculate_frequency. rewrite H. simpl.
  by rewrite pitch_classes_spec.
Qed.

Lemma powerRZ_2_succ (z : Z) : powerRZ 2 (z + 1) = 2 * powerRZ 2 z.
Proof.
  rewrite powerRZ_add by lra. change 1%Z with (Z.succ 0).
  rewrite powerRZ_1. ring.
Qed.

(** C9.  For each of the twelve pitch classes [p], with semitone offset
    [k], and every octave [o], [calculate_frequency] returns
    [262 * 2^(k/12) * 2^(o-4)]; C in octave 4 is 262 Hz; and one octave up
    doubles the frequency, for every pitch. *)
Theorem calculate_frequency_formula :
  (∀ (p : string) (k o : Z),
     spec_pitch_class p = Some k →
     calculate_frequency (Some p) o
     = 262 * Rpower 2 (IZR k / 12) * powerRZ 2 (o - 4))
  ∧ calculate_frequency (Some "C"%string) 4 = 262
  ∧ (∀ (pitch : option string) (o : Z),
       calculate_frequency pitch (o + 1) = 2 * calculate_frequency pitch o).
Proof.
  split; [|split].
  - intros p k o Hp.
    rewrite calculate_frequency_pitched by (by eapply pitch_class_nonempty).
    by rewrite Hp.
  - rewrite calculate_frequency_pitched by done. simpl.
    replace (0 / 12) with 0 by lra. rewrite Rpower_O by lra. lra.
  - intros pitch o. destruct (truthy pitch) eqn:Ht.
    + destruct pitch as [p|]; [|done].
      rewrite !calculate_frequency_pitched by done.
      replace (o + 1 - 4)%Z with (o - 4 + 1)%Z by lia.
      rewrite powerRZ_2_succ. ring.
    + rewrite !calculate_frequency_silence by done. ring.
Qed.

Lemma calculate_frequency_formula_witness :
  spec_pitch_class "A" = Some 9%Z
  ∧ calculate_frequency (Some "A"%string) 4
    = 262 * Rpower 2 (IZR 9 / 12) * powerRZ 2 (4 - 4).
Proof.
  split; [reflexivity|].
  exact (proj1 calculate_frequency_formula "A"%string 9%Z 4%Z eq_refl).
Defined.

(** ** Note construction *)

Lemma getitem_Some {V} (d : gmap string V) (k : string) (v : V) :
  d !! k = Some v → getitem d k = Ok v.
Proof. unfold getitem. by intros ->. Qed.

Lemma getitem_None {V} (d : gmap string V) (k : string) :
  d !! k = None → getitem d k = Raise (KeyError k).
Proof. unfold getitem. by intros ->. Qed.

Lemma calculate_duration_ok (bpm : Z) (duration_symbol : string) (beats : R) :
  (0 < bpm)%Z → DURATION_MAP !! duration_symbol = Some beats →
  calculate_duration bpm duration_symbol = Ok (beats * (60 / IZR bpm)).
Proof.
  intros Hbpm Hsym. unfold calculate_duration, truediv.
  destruct (bpm =? 0)%Z eqn:E; [lia|].
  by rewrite bind_Ok, (getitem_Some _ _ _ Hsym).
Qed.

Lemma calculate_duration_unknown (bpm : Z) (duration_symbol : string) :
  (0 < bpm)%Z → DURATION_MAP !! duration_symbol = None →
  calculate_duration bpm duration_symbol = Raise (KeyError duration_symbol).
Proof.
  intros Hbpm Hsym. unfold calculate_duration, truediv.
  destruct (bpm =? 0)%Z eqn:E; [lia|].
  by rewrite bind_Ok, (getitem_None _ _ Hsym).
Qed.

Lemma note_duration_positive (bpm : Z) (beats : R) :
  (0 < bpm)%Z → 0 < beats → 0 < beats * (60 / IZR bpm).
Proof.
  intros Hbpm Hbeats. apply Rmult_lt_0_compat; [done|].
  apply Rdiv_lt_0_compat; [lra|]. by apply (IZR_lt 0).
Qed.

Lemma honors1_note_init_ok (pitch : option string) (octave : Z)
    (duration_symbol tempo : string) (amplitude bpm : Z) (beats : R) :
  TEMPOS !! tempo = Some bpm → DURATION_MAP !! duration_symbol = Some beats →
  let f := if truthy pitch then calculate_frequency pitch octave else 0 in
  let d := beats * (60 / IZR bpm) in
  let a := if truthy pitch then amplitude else 0%Z in
  Honors1.Note.init pitch octave duration_symbol tempo amplitude
  = Ok (Honors1.Note.mk pitch octave duration_symbol bpm f d a
          (Honors1.Wave.mk a f d
             ((fun n => IZR a * sin (2 * PI * f * instant d n))
                <$> seq 0 (Z.to_nat (int (IZR SAMPLERATE * d)))))).
Proof.
  intros Htempo Hsym f d a. unfold Honors1.Note.init.
  pose proof (tempos_positive _ _ Htempo) as Hbpm.
  pose proof (duration_map_positive _ _ Hsym) as Hbeats.
  rewrite (getitem_Some _ _ _ Htempo), bind_Ok.
  rewrite (calculate_duration_ok _ _ _ Hbpm Hsym), bind_Ok.
  unfold Honors1.Wave.init.
  rewrite honors1_generate_wave_eq
    by (apply Rlt_le; by apply note_duration_positive).
  done.
Qed.

Lemma honors2_note_init_ok (pitch : option string) (octave : Z)
    (duration_symbol tempo : string) (bpm : Z) (beats : R) :
  TEMPOS !! tempo = Some bpm → DURATION_MAP !! duration_symbol = Some beats →
  let f := if truthy pitch then calculate_frequency pitch octave else 0 in
  let d := beats * (60 / IZR bpm) in
  Honors2.Note.init pitch octave duration_symbol tempo
  = Ok (Honors2.Note.mk pitch octave duration_symbol bpm f d
          (Honors2.Wave.mk f d
             ((fun n => additive_sample f (instant d n))
                <$> seq 0 (Z.to_nat (int (IZR SAMPLERATE * d)))))).
Proof.
  intros Htempo Hsym f d. unfold Honors2.Note.init.
  pose proof (tempos_positive _ _ Htempo) as Hbpm.
  pose proof (duration_map_positive _ _ Hsym) as Hbeats.
  rewrite (getitem_Some _ _ _ Htempo), bind_Ok.
  rewrite (calculate_duration_ok _ _ _ Hbpm Hsym), bind_Ok.
  assert (Hd : 0 <= d) by (apply Rlt_le; by apply note_duration_positive).
  subst f. unfold Honors2.Wave.init.
  destruct (truthy pitch); simpl negb; cbv iota;
    by rewrite honors2_generate_wave_eq by done.
Qed.

Lemma honors1_note_init_unknown_tempo (pitch : option string) (octave : Z)
    (duration_symbol tempo : string) (amplitude : Z) :
  TEMPOS !! tempo = None →
  Honors1.Note.init pitch octave duration_symbol tempo amplitude
  = Raise (KeyError tempo).
Proof.
  intros H. unfold Honors1.Note.init. by rewrite (getitem_None _ _ H).
Qed.

Lemma honors2_note_init_unknown_tempo (pitch : option string) (octave : Z)
    (duration_symbol tempo : string) :
  TEMPOS !! tempo = None →
  Honors2.Note.init pitch octave duration_symbol tempo = Raise (KeyError tempo).
Proof.
  intros H. unfold Honors2.Note.init. by rewrite (getitem_None _ _ H).
Qed.

Lemma honors1_note_init_unknown_symbol (pitch : option string) (octave : Z)
    (duration_symbol tempo : string) (amplitude bpm : Z) :
  TEMPOS !! tempo = Some bpm → DURATION_MAP !! duration_symbol = None →
  Honors1.Note.init pitch octave duration_symbol tempo amplitude
  = Raise (KeyError duration_symbol).
Proof.
  intros Ht Hs. unfold Honors1.Note.init.
  rewrite (getitem_Some _ _ _ Ht), bind_Ok.
  by rewrite calculate_duration_unknown by eauto using tempos_positive.
Qed.

Lemma honors2_note_init_unknown_symbol (pitch : option string) (octave : Z)
    (duration_symbol tempo : string) (bpm : Z) :
  TEMPOS !! tempo = Some bpm → DURATION_MAP !! duration_symbol = None →
  Honors2.Note.init pitch octave duration_symbol tempo
  = Raise (KeyError duration_symbol).
Proof.
  intros Ht Hs. unfold Honors2.Note.init.
  rewrite (getitem_Some _ _ _ Ht), bind_Ok.
  by rewrite calculate_duration_unknown by eauto using tempos_positive.
Qed.


(** ** Songs with an unknown tempo *)

Lemma honors1_play_line_unknown_tempo (piano : Honors1.Piano.t)
    (tempo : string) (line : list note_info) :
  TEMPOS !! tempo = None → line ≠ [] →
  Honors1.Song.play_line piano tempo line = Raise (KeyError tempo).
Proof.
  intros Ht Hne. destruct line as [|i rest]; [done|]. simpl.
  by rewrite honors1_note_init_unknown_tempo.
Qed.

Lemma honors1_play_lines_unknown_tempo (piano : Honors1.Piano.t)
    (tempo : string) (lines : list (list note_info)) :
  TEMPOS !! tempo = None → (∃ line, line ∈ lines ∧ line ≠ []) →
  Honors1.Song.play_lines piano tempo lines = Raise (KeyError tempo).
Proof.
  intros Ht (line & Hin & Hne). revert piano.
  induction lines as [|l lines IH]; intros piano; [by apply elem_of_nil in Hin|].
  simpl. destruct l as [|i rest].
  - simpl. rewrite ?bind_Ok. apply IH.
    apply elem_of_cons in Hin as [->|Hin]; done.
  - by rewrite honors1_play_line_unknown_tempo.
Qed.

Lemma honors1_play_tempos_unknown_tempo (piano : Honors1.Piano.t)
    (tempos : list string) (lines : list (list note_info)) :
  (∃ tempo, tempo ∈ tempos ∧ TEMPOS !! tempo = None) →
  (∃ line, line ∈ lines ∧ line ≠ []) →
  ∃ e, Honors1.Song.play_tempos piano tempos lines = Raise e.
Proof.
  intros (tempo & Hin & Ht) Hlines. revert piano.
  induction tempos as [|t tempos IH]; intros piano; [by apply elem_of_nil in Hin|].
  simpl. apply elem_of_cons in Hin as [<-|Hin].
  - rewrite honors1_play_lines_unknown_tempo by done. by eexists.
  - destruct (Honors1.Song.play_lines piano t lines) as [piano'|e].
    + rewrite bind_Ok. by apply IH.
    + by eexists.
Qed.

Lemma honors2_process_notes_unknown_tempo (piano : Honors2.Piano.t)
    (note_infos : list note_info) (tempo hand : string) :
  TEMPOS !! tempo = None → note_infos ≠ [] →
  Honors2.Song.process_notes piano note_infos tempo hand = Raise (KeyError tempo).
Proof.
  intros Ht Hne. destruct note_infos as [|i rest]; [done|]. simpl.
  by rewrite honors2_note_init_unknown_tempo.
Qed.

Lemma honors2_play_blocks_unknown_tempo (piano : Honors2.Piano.t)
    (tempo : string) (blocks : list (list note_info * list note_info)) :
  TEMPOS !! tempo = None →
  (∃ b, b ∈ blocks ∧ (b.1 ≠ [] ∨ b.2 ≠ [])) →
  Honors2.Song.play_blocks piano tempo blocks = Raise (KeyError tempo).
Proof.
  intros Ht (b & Hin & Hne). revert piano.
  induction blocks as [|[r l] blocks IH]; intros piano;
    [by apply elem_of_nil in Hin|].
  simpl. destruct r as [|i r].
  - simpl. rewrite ?bind_Ok. destruct l as [|j l].
    + simpl. rewrite ?bind_Ok. apply IH.
      apply elem_of_cons in Hin as [->|Hin]; [|done].
      simpl in Hne. by destruct Hne.
    + by rewrite honors2_process_notes_unknown_tempo.
  - by rewrite honors2_process_notes_unknown_tempo.
Qed.

(** C7.  In both files the constructor looks the tempo up first: a tempo
    name that is not a key of [TEMPOS] raises [KeyError] on that name,
    whatever the other arguments; [load_and_play_song] then leaves with
    an exception before it reaches [write], so that no file is written.
    With a known tempo, a duration symbol that is not a key of
    [DURATION_MAP] raises [KeyError] on that symbol.  With both present
    the constructor returns a note. *)
Theorem note_construction_errors :
  (∀ pitch octave duration_symbol tempo amplitude,
     TEMPOS !! tempo = None →
     Honors1.Note.init pitch octave duration_symbol tempo amplitude
     = Raise (KeyError tempo)
     ∧ Honors2.Note.init pitch octave duration_symbol tempo
       = Raise (KeyError tempo))
  ∧ (∀ tempos lines,
       (∃ tempo, tempo ∈ tempos ∧ TEMPOS !! tempo = None) →
       (∃ line, line ∈ lines ∧ line ≠ []) →
       ∃ e, Honors1.Song.load_and_play_song tempos lines = Raise e)
  ∧ (∀ tempo blocks,
       TEMPOS !! tempo = None →
       (∃ b, b ∈ blocks ∧ (b.1 ≠ [] ∨ b.2 ≠ [])) →
       Honors2.Song.load_and_play_song tempo blocks = Raise (KeyError tempo))
  ∧ (∀ pitch octave duration_symbol tempo amplitude,
       is_Some (TEMPOS !! tempo) → DURATION_MAP !! duration_symbol = None →
       Honors1.Note.init pitch octave duration_symbol tempo amplitude
       = Raise (KeyError duration_symbol)
       ∧ Honors2.Note.init pitch octave duration_symbol tempo
         = Raise (KeyError duration_symbol))
  ∧ (∀ pitch octave duration_symbol tempo amplitude,
       is_Some (TEMPOS !! tempo) → is_Some (DURATION_MAP !! duration_symbol) →
       ∃ n1 n2,
         Honors1.Note.init pitch octave duration_symbol tempo amplitude = Ok n1
         ∧ Honors2.Note.init pitch octave duration_symbol tempo = Ok n2).
Proof.
  repeat split.
  - by apply honors1_note_init_unknown_tempo.
  - by apply honors2_note_init_unknown_tempo.
  - intros tempos lines Ht Hl. unfold Honors1.Song.load_and_play_song.
    destruct (honors1_play_tempos_unknown_tempo Honors1.Piano.init
                tempos lines Ht Hl) as [e ->].
    by exists e.
  - intros tempo blocks Ht Hb. unfold Honors2.Song.load_and_play_song.
    by rewrite honors2_play_blocks_unknown_tempo.
  - destruct H as [bpm Ht]. by eapply honors1_note_init_unknown_symbol.
  - destruct H as [bpm Ht]. by eapply honors2_note_init_unknown_symbol.
  - intros pitch octave sym tempo amplitude [bpm Ht] [beats Hs].
    do 2 eexists.
    by rewrite (honors1_note_init_ok _ _ _ _ _ _ _ Ht Hs),
               (honors2_note_init_ok _ _ _ _ _ _ Ht Hs).
Qed.

Lemma note_construction_errors_witness :
  (TEMPOS !! "Rapido"%string = None
   ∧ Honors1.Note.init (Some "C"%string) 4 "QN" "Rapido" AMPLITUDE
     = Raise (KeyError "Rapido")
   ∧ Honors2.Note.init (Some "C"%string) 4 "QN" "Rapido"
     = Raise (KeyError "Rapido"))
  ∧ (is_Some (TEMPOS !! "Largo"%string)
     ∧ DURATION_MAP !! "XN"%string = None
     ∧ Honors1.Note.init (Some "C"%string) 4 "XN" "Largo" AMPLITUDE
       = Raise (KeyError "XN")
     ∧ Honors2.Note.init (Some "C"%string) 4 "XN" "Largo"
       = Raise (KeyError "XN"))
  ∧ (is_Some (DURATION_MAP !! "QN"%string)
     ∧ ∃ n1 n2,
         Honors1.Note.init (Some "C"%string) 4 "QN" "Largo" AMPLITUDE = Ok n1
         ∧ Honors2.Note.init (Some "C"%string) 4 "QN" "Largo" = Ok n2)
  ∧ Honors2.Song.load_and_play_song "Rapido"
      [([NoteInfo (Some "C"%string) 4 "QN"], [])]
    = Raise (KeyError "Rapido").
Proof.
  destruct note_construction_errors as (Htempo & _ & Hsong & Hsym & Hok).
  assert (H1 : TEMPOS !! "Rapido"%string = None) by reflexivity.
  assert (H2 : is_Some (TEMPOS !! "Largo"%string)) by (by eexists).
  assert (H3 : DURATION_MAP !! "XN"%string = None) by reflexivity.
  assert (H4 : is_Some (DURATION_MAP !! "QN"%string)) by (by eexists).
  split; [split; [exact H1 | by apply Htempo]|].
  split; [split; [exact H2 | split; [exact H3 | by apply Hsym]]|].
  split; [split; [exact H4 | by apply Hok]|].
  apply Hsong; [exact H1|].
  eexists. split; [apply elem_of_cons; by left|]. left. done.
Defined.

(** ** Pitches outside the table *)

Lemma truthy_nonempty (p : string) : p ≠ ""%string → truthy (Some p) = true.
Proof. by destruct p. Qed.

Lemma calculate_frequency_default (p : string) (octave : Z) :
  p ≠ ""%string → spec_pitch_class p = None →
  calculate_frequency (Some p) octave = 262 * powerRZ 2 (octave - 4).
Proof.
  intros Hp Hnone.
  rewrite calculate_frequency_pitched by (by apply truthy_nonempty).
  rewrite Hnone. simpl.
  replace (0 / 12) with 0 by lra. rewrite Rpower_O by lra. ring.
Qed.

(** C8, as stated, fails: the pitch [H] is not among the twelve classes,
    and both constructors return a note for it, at the frequency of C. *)
Lemma unknown_pitch_not_rejected :
  spec_pitch_class "H" = None
  ∧ ∃ n1 n2,
      Honors1.Note.init (Some "H"%string) 4 "QN" "Adagio" AMPLITUDE = Ok n1
      ∧ Honors2.Note.init (Some "H"%string) 4 "QN" "Adagio" = Ok n2
      ∧ Honors1.Note.frequency n1 = 262
      ∧ Honors2.Note.frequency n2 = 262.
Proof.
  split; [reflexivity|].
  assert (Ht : TEMPOS !! "Adagio"%string = Some 60%Z) by reflexivity.
  assert (Hs : DURATION_MAP !! "QN"%string = Some 1.0) by reflexivity.
  do 2 eexists.
  rewrite (honors1_note_init_ok _ _ _ _ _ _ _ Ht Hs),
          (honors2_note_init_ok _ _ _ _ _ _ Ht Hs).
  split; [done|]. split; [done|]. simpl.
  rewrite calculate_frequency_default by done. simpl. split; lra.
Qed.

(** C8, amended.  For every non-empty pitch that is not one of the twelve
    pitch classes, and a tempo and duration symbol of the tables, both
    constructors return a note, and its frequency is the one of pitch
    class 0 (C) in the given octave, [262 * 2^(octave - 4)]. *)
Theorem unknown_pitch_defaults (p : string) (octave : Z)
    (duration_symbol tempo : string) (amplitude : Z) :
  p ≠ ""%string → spec_pitch_class p = None →
  is_Some (TEMPOS !! tempo) → is_Some (DURATION_MAP !! duration_symbol) →
  ∃ n1 n2,
    Honors1.Note.init (Some p) octave duration_symbol tempo amplitude = Ok n1
    ∧ Honors2.Note.init (Some p) octave duration_symbol tempo = Ok n2
    ∧ Honors1.Note.frequency n1 = 262 * powerRZ 2 (octave - 4)
    ∧ Honors2.Note.frequency n2 = 262 * powerRZ 2 (octave - 4)
    ∧ calculate_frequency (Some "C"%string) octave = 262 * powerRZ 2 (octave - 4).
Proof.
  intros Hp Hnone [bpm Ht] [beats Hs].
  do 2 eexists.
  rewrite (honors1_note_init_ok _ _ _ _ _ _ _ Ht Hs),
          (honors2_note_init_ok _ _ _ _ _ _ Ht Hs).
  split; [done|]. split; [done|].
  cbn [Honors1.Note.frequency Honors2.Note.frequency].
  rewrite (truthy_nonempty p Hp).
  rewrite calculate_frequency_default by done.
  split; [done|]. split; [done|].
  rewrite calculate_frequency_pitched by done. simpl.
  replace (0 / 12) with 0 by lra. rewrite Rpower_O by lra. ring.
Qed.

Lemma unknown_pitch_defaults_witness :
  "H"%string ≠ ""%string ∧ spec_pitch_class "H" = None
  ∧ is_Some (TEMPOS !! "Allegro"%string)
  ∧ is_Some (DURATION_MAP !! "HN"%string)
  ∧ ∃ n1 n2,
      Honors1.Note.init (Some "H"%string) 5 "HN" "Allegro" AMPLITUDE = Ok n1
      ∧ Honors2.Note.init (Some "H"%string) 5 "HN" "Allegro" = Ok n2
      ∧ Honors1.Note.frequency n1 = 262 * powerRZ 2 (5 - 4)
      ∧ Honors2.Note.frequency n2 = 262 * powerRZ 2 (5 - 4)
      ∧ calculate_frequency (Some "C"%string) 5 = 262 * powerRZ 2 (5 - 4).
Proof.
  assert (H1 : "H"%string ≠ ""%string) by done.
  assert (H2 : spec_pitch_class "H" = None) by reflexivity.
  assert (H3 : is_Some (TEMPOS !! "Allegro"%string)) by (by eexists).
  assert (H4 : is_Some (DURATION_MAP !! "HN"%string)) by (by eexists).
  split; [exact H1|]. split; [exact H2|]. split; [exact H3|]. split; [exact H4|].
  exact (unknown_pitch_defaults "H" 5 "HN" "Allegro" AMPLITUDE H1 H2 H3 H4).
Defined.

(** ** Concatenation of notes (honors1) *)

Lemma total_length_buffers (notes : list Honors1.Note.t) :
  foldr Z.add 0%Z
    ((fun note => len (Honors1.Wave.data (Honors1.Note.wave note))) <$> notes)
  = Z.of_nat (sum_list (length <$> note_buffers notes)).
Proof.
  induction notes as [|n notes IH]; [done|].
  csimpl. rewrite IH. unfold len. lia.
Qed.

(** Loop invariant of [get_combined_wave]: the samples before
    [current_index] and after the notes still to place are untouched. *)
Lemma place_notes_ok (notes : list Honors1.Note.t) :
  ∀ (combined : list R) (cur : nat),
    (cur + sum_list (length <$> note_buffers notes) ≤ length combined)%nat →
    Honors1.Piano.place_notes notes combined (Z.of_nat cur)
    = Ok (take cur combined ++ mjoin (note_buffers notes)
          ++ drop (cur + sum_list (length <$> note_buffers notes)) combined).
Proof.
  induction notes as [|note notes IH]; intros combined cur Hfit.
  - simpl. by rewrite Nat.add_0_r, take_drop.
  - csimpl in *.
    set (v := Honors1.Wave.data (Honors1.Note.wave note)) in *.
    rewrite setitem_slice_within by (unfold len; lia).
    rewrite bind_Ok, Nat2Z.id.
    set (c := take cur combined ++ v ++ drop (cur + length v) combined).
    assert (Hc : c = (take cur combined ++ v) ++ drop (cur + length v) combined)
      by (subst c; by rewrite app_assoc).
    assert (Hl : length (take cur combined ++ v) = (cur + length v)%nat)
      by (rewrite length_app, length_take; lia).
    replace (Z.of_nat cur + len v)%Z with (Z.of_nat (cur + length v))
      by (unfold len; lia).
    rewrite IH.
    + f_equal. rewrite Hc.
      rewrite take_app_length' by done.
      rewrite drop_app_ge by lia. rewrite Hl, drop_drop.
      rewrite <- !app_assoc. do 4 f_equal. lia.
    + rewrite Hc, length_app, Hl, length_drop. lia.
Qed.

(** C10.  For every sequence of notes added to a honors1 piano,
    [get_combined_wave] returns the concatenation of the notes' buffers in
    insertion order: its length is the sum of the buffer lengths, and
    sample [j] of note [k] sits at the sum of the buffer lengths of notes
    [0..k-1], plus [j]. *)
Theorem get_combined_wave_concatenates (notes : list Honors1.Note.t) :
  let piano := foldl Honors1.Piano.add_note Honors1.Piano.init notes in
  Honors1.Piano.notes piano = notes
  ∧ ∃ out,
      Honors1.Piano.get_combined_wave piano = Ok out
      ∧ out = mjoin (note_buffers notes)
      ∧ length out = sum_list (length <$> note_buffers notes)
      ∧ ∀ (k j : nat) (note : Honors1.Note.t) (x : R),
          notes !! k = Some note →
          Honors1.Wave.data (Honors1.Note.wave note) !! j = Some x →
          out !! (sum_list (length <$> take k (note_buffers notes)) + j)%nat
          = Some x.
Proof.
  intros piano.
  assert (Hnotes : Honors1.Piano.notes piano = notes).
  { subst piano.
    enough (∀ p, Honors1.Piano.notes (foldl Honors1.Piano.add_note p notes)
                 = Honors1.Piano.notes p ++ notes) as H by apply H.
    induction notes as [|n notes IH]; intros p; simpl.
    - by rewrite app_nil_r.
    - rewrite IH. simpl. by rewrite <- app_assoc. }
  split; [done|].
  exists (mjoin (note_buffers notes)).
  split; [|split; [done|split]].
  - unfold Honors1.Piano.get_combined_wave. rewrite Hnotes.
    rewrite total_length_buffers, np_zeros_ok by lia.
    rewrite bind_Ok, Nat2Z.id.
    rewrite (place_notes_ok notes _ 0)
      by (rewrite length_replicate; simpl; lia).
    rewrite take_0, drop_ge by (rewrite length_replicate; simpl; lia).
    by rewrite app_nil_r.
  - apply length_join.
  - intros k j note x Hk Hj. apply join_lookup_Some.
    exists k, (Honors1.Wave.data (Honors1.Note.wave note)), j.
    split; [|done]. unfold note_buffers. by rewrite list_lookup_fmap, Hk.
Qed.

(** ** Voices of the two-hand piano (honors2) *)



Lemma schedule_app (clock : R) (l1 l2 : list Honors2.Note.t) :
  Voice.schedule clock (l1 ++ l2)
  = Voice.schedule clock l1
    ++ Voice.schedule (clock + Voice.total_duration l1) l2.
Proof.
  revert clock. induction l1 as [|n l1 IH]; intros clock; simpl.
  - by rewrite Rplus_0_r.
  - rewrite IH. do 3 f_equal. unfold Voice.total_duration. simpl. lra.
Qed.









(** ** Slice assignment inside the buffer *)

Lemma length_setitem_within (a v : list R) (s : nat) :
  (s + length v ≤ length a)%nat →
  length (take s a ++ v ++ drop (s + length v) a) = length a.
Proof.
  intros H. rewrite !length_app, length_take, length_drop. lia.
Qed.

(** * Further properties of the two engines *)

(** ** Zero frequency *)

Lemma fmap_seq_zero (g : nat → R) (n : nat) :
  (∀ i, (i < n)%nat → g i = 0) → g <$> seq 0 n = replicate n 0.
Proof.
  intros Hg. apply list_eq. intros i.
  destruct (decide (i < n)%nat) as [Hi|Hi].
  - rewrite lookup_fmap_seq by done. rewrite Hg by done.
    symmetry. by apply lookup_replicate_2.
  - rewrite !lookup_ge_None_2; [done | |].
    + rewrite length_replicate. lia.
    + rewrite length_fmap_seq. lia.
Qed.

Lemma harmonic_sum_zero_frequency (ks : list nat) (t : R) :
  harmonic_sum ks 0 t = 0.
Proof.
  unfold harmonic_sum. induction ks as [|k ks IH]; [done|].
  rewrite fmap_cons.
  change (foldr Rplus 0 (?x :: ?l)) with (x + foldr Rplus 0 l).
  rewrite IH. replace (2 * PI * INR k * 0 * t) with 0 by ring.
  rewrite sin_0. ring.
Qed.

Lemma additive_sample_zero_frequency (t : R) : additive_sample 0 t = 0.
Proof. unfold additive_sample. rewrite harmonic_sum_zero_frequency. ring. Qed.

(** ** Sign of the frequency *)

Lemma Rpower_2_pos (x : R) : 0 < Rpower 2 x.
Proof. unfold Rpower. apply exp_pos. Qed.

Lemma calculate_frequency_positive (p : string) (octave : Z) :
  truthy (Some p) = true → 0 < calculate_frequency (Some p) octave.
Proof.
  intros Hp. rewrite calculate_frequency_pitched by done.
  apply Rmult_lt_0_compat; [apply Rmult_lt_0_compat|].
  - lra.
  - apply Rpower_2_pos.
  - apply powerRZ_lt. lra.
Qed.

(** ** Range of note durations *)





(** ** Equal temperament *)

(** X5.  The pitch table is the twelve-tone equal temperament: within an
    octave a pitch one table step higher sounds [2^(1/12)] times higher,
    a higher step always gives a strictly higher frequency, and C of the
    next octave is [2^(1/12)] times B. *)
Theorem semitone_ratio :
  (∀ (p q : string) (k o : Z),
     PITCH_CLASSES !! p = Some k → PITCH_CLASSES !! q = Some (k + 1)%Z →
     calculate_frequency (Some q) o
     = Rpower 2 (1 / 12) * calculate_frequency (Some p) o)
  ∧ (∀ (p q : string) (j k o : Z),
       PITCH_CLASSES !! p = Some j → PITCH_CLASSES !! q = Some k →
       (j < k)%Z →
       calculate_frequency (Some p) o < calculate_frequency (Some q) o)
  ∧ (∀ o : Z,
       calculate_frequency (Some "C"%string) (o + 1)
       = Rpower 2 (1 / 12) * calculate_frequency (Some "B"%string) o).
Proof.
  split; [|split].
  - intros p q k o Hp Hq. rewrite pitch_classes_spec in Hp, Hq.
    rewrite !calculate_frequency_pitched by (by eapply pitch_class_nonempty).
    rewrite Hp, Hq. simpl default.
    replace (IZR (k + 1) / 12) with (1 / 12 + IZR k / 12)
      by (rewrite plus_IZR; lra).
    rewrite Rpower_plus. ring.
  - intros p q j k o Hp Hq Hjk. rewrite pitch_classes_spec in Hp, Hq.
    rewrite !calculate_frequency_pitched by (by eapply pitch_class_nonempty).
    rewrite Hp, Hq. simpl default.
    apply Rmult_lt_compat_r; [apply powerRZ_lt; lra|].
    apply Rmult_lt_compat_l; [lra|].
    apply Rpower_lt; [lra|]. apply IZR_lt in Hjk. lra.
  - intros o. rewrite !calculate_frequency_pitched by done.
    simpl default.
    replace (o + 1 - 4)%Z with (o - 4 + 1)%Z by lia.
    rewrite powerRZ_2_succ.
    replace (IZR 0 / 12) with 0 by lra. rewrite Rpower_O by lra.
    replace (Rpower 2 (1 / 12) * (262 * Rpower 2 (IZR 11 / 12) * powerRZ 2 (o - 4)))
      with (262 * (Rpower 2 (1 / 12) * Rpower 2 (IZR 11 / 12)) * powerRZ 2 (o - 4))
      by ring.
    rewrite <- Rpower_plus.
    replace (1 / 12 + IZR 11 / 12) with 1 by lra.
    rewrite Rpower_1 by lra. ring.
Qed.

Lemma semitone_ratio_witness :
  PITCH_CLASSES !! "E"%string = Some 4%Z
  ∧ PITCH_CLASSES !! "F"%string = Some (4 + 1)%Z
  ∧ calculate_frequency (Some "F"%string) 4
    = Rpower 2 (1 / 12) * calculate_frequency (Some "E"%string) 4.
Proof.
  assert (H1 : PITCH_CLASSES !! "E"%string = Some 4%Z) by reflexivity.
  assert (H2 : PITCH_CLASSES !! "F"%string = Some (4 + 1)%Z) by reflexivity.
  split; [exact H1|]. split; [exact H2|].
  exact (proj1 semitone_ratio "E"%string "F"%string 4%Z 4%Z H1 H2).
Defined.

(** ** Algebra of waveform addition *)

Lemma honors1_add_amplitude (a b w : Honors1.Wave.t) :
  Honors1.Wave.add a b = Ok w → Honors1.Wave.amplitude w = AMPLITUDE.
Proof.
  unfold Honors1.Wave.add. cbv zeta. intros H.
  apply bind_Ok_inv in H as (c0 & _ & H).
  apply bind_Ok_inv in H as (c1 & _ & H).
  apply bind_Ok_inv in H as (c2 & _ & H).
  by injection H as <-.
Qed.

(** X6.  In both files, adding a buffer of zeros that is not longer than
    the wave leaves the samples as they are (the silence that
    [combine_notes] adds before each note). *)
Theorem wave_add_zero_identity :
  (∀ (a z : Honors1.Wave.t) (n : nat),
     Honors1.Wave.data z = replicate n 0 →
     (n ≤ length (Honors1.Wave.data a))%nat →
     ∃ w, Honors1.Wave.add a z = Ok w
          ∧ Honors1.Wave.data w = Honors1.Wave.data a)
  ∧ (∀ (a z : Honors2.Wave.t) (n : nat),
       Honors2.Wave.data z = replicate n 0 →
       (n ≤ length (Honors2.Wave.data a))%nat →
       ∃ w, Honors2.Wave.add a z = Ok w
            ∧ Honors2.Wave.data w = Honors2.Wave.data a).
Proof.
  split.
  - intros a z n Hz Hn.
    destruct (honors1_add_ok a z) as (w & Hw & Hl & Hs & _).
    exists w. split; [done|]. rewrite Hz, length_replicate in Hl.
    apply sample_ext; [lia|]. intros i.
    rewrite Hs, Hz, sample_replicate_zero. lra.
  - intros a z n Hz Hn.
    destruct (honors2_add_ok a z) as (w & Hw & Hl & Hs & _).
    exists w. split; [done|]. rewrite Hz, length_replicate in Hl.
    apply sample_ext; [lia|]. intros i.
    rewrite Hs, Hz, sample_replicate_zero. lra.
Qed.

Lemma wave_add_zero_identity_witness :
  let a := Honors2.Note.wave note_C4_QN_Adagio in
  let z := Honors2.Wave.mk 0 0 (replicate 0 0) in
  Honors2.Wave.data z = replicate 0 0
  ∧ (0 ≤ length (Honors2.Wave.data a))%nat
  ∧ ∃ w, Honors2.Wave.add a z = Ok w
         ∧ Honors2.Wave.data w = Honors2.Wave.data a.
Proof.
  intros a z.
  assert (H1 : Honors2.Wave.data z = replicate 0 0) by reflexivity.
  assert (H2 : (0 ≤ length (Honors2.Wave.data a))%nat) by lia.
  split; [exact H1|]. split; [exact H2|].
  exact (proj2 wave_add_zero_identity a z 0%nat H1 H2).
Defined.

(** X7.  The sum of two waves keeps the duration of the left operand; its
    frequency is the left operand's in honors1, where the amplitude is
    reset to [AMPLITUDE], and the sum of the two frequencies in honors2.
    So [a + b] and [b + a] are the same wave exactly when the durations
    (and, in honors1, the frequencies) of [a] and [b] are equal. *)
Theorem wave_add_fields :
  (∀ a b : Honors1.Wave.t,
     ∃ ab ba,
       Honors1.Wave.add a b = Ok ab ∧ Honors1.Wave.add b a = Ok ba
       ∧ Honors1.Wave.frequency ab = Honors1.Wave.frequency a
       ∧ Honors1.Wave.duration ab = Honors1.Wave.duration a
       ∧ Honors1.Wave.amplitude ab = AMPLITUDE
       ∧ (ab = ba ↔ Honors1.Wave.frequency a = Honors1.Wave.frequency b
                    ∧ Honors1.Wave.duration a = Honors1.Wave.duration b))
  ∧ (∀ a b : Honors2.Wave.t,
     ∃ ab ba,
       Honors2.Wave.add a b = Ok ab ∧ Honors2.Wave.add b a = Ok ba
       ∧ Honors2.Wave.frequency ab
         = Honors2.Wave.frequency a + Honors2.Wave.frequency b
       ∧ Honors2.Wave.duration ab = Honors2.Wave.duration a
       ∧ (ab = ba ↔ Honors2.Wave.duration a = Honors2.Wave.duration b)).
Proof.
  split; intros a b.
  - destruct (honors1_add_ok a b) as (ab & Hab & Hl1 & Hs1 & Hf1 & Hd1).
    destruct (honors1_add_ok b a) as (ba & Hba & Hl2 & Hs2 & Hf2 & Hd2).
    pose proof (honors1_add_amplitude _ _ _ Hab) as Ha1.
    pose proof (honors1_add_amplitude _ _ _ Hba) as Ha2.
    assert (Hdata : Honors1.Wave.data ab = Honors1.Wave.data ba).
    { apply sample_ext; [lia|]. intros i. rewrite Hs1, Hs2. lra. }
    exists ab, ba.
    split; [done|]. split; [done|]. split; [done|]. split; [done|].
    split; [done|]. split.
    + intros <-. split; congruence.
    + intros [Hf Hd]. destruct ab, ba. simpl in *. congruence.
  - destruct (honors2_add_ok a b) as (ab & Hab & Hl1 & Hs1 & Hf1 & Hd1).
    destruct (honors2_add_ok b a) as (ba & Hba & Hl2 & Hs2 & Hf2 & Hd2).
    assert (Hdata : Honors2.Wave.data ab = Honors2.Wave.data ba).
    { apply sample_ext; [lia|]. intros i. rewrite Hs1, Hs2. lra. }
    exists ab, ba.
    split; [done|]. split; [done|]. split; [done|]. split; [done|]. split.
    + intros <-. congruence.
    + intros Hd. destruct ab, ba. simpl in *. subst. f_equal; lra.
Qed.

(** ** Sample ranges (honors1) *)

Lemma within_sample (B : R) (a : list R) (i : nat) :
  0 <= B → Forall (within B) a → within B (sample a i).
Proof.
  intros HB Ha. unfold sample. destruct (a !! i) as [x|] eqn:E; simpl.
  - by eapply Forall_lookup_1.
  - unfold within. lra.
Qed.

Lemma scaled_sine_within (a : Z) (x : R) :
  within (IZR (Z.abs a)) (IZR a * sin x).
Proof.
  unfold within. pose proof (SIN_bound x) as [Hlo Hhi].
  rewrite abs_IZR. unfold Rabs. destruct (Rcase_abs (IZR a)); nra.
Qed.

Lemma honors1_generate_wave_within (a : Z) (f d : R) (samples : list R) :
  Honors1.Wave.generate_wave a f d = Ok samples →
  Forall (within (IZR (Z.abs a))) samples.
Proof.
  unfold Honors1.Wave.generate_wave. intros H.
  apply bind_Ok_inv in H as (ts & _ & H). injection H as <-.
  apply Forall_fmap, Forall_forall. intros t _. apply scaled_sine_within.
Qed.

Lemma honors1_note_init_within (pitch : option string) (octave : Z)
    (duration_symbol tempo : string) (amplitude : Z) (n : Honors1.Note.t) :
  Honors1.Note.init pitch octave duration_symbol tempo amplitude = Ok n →
  Forall (within (IZR (Z.abs amplitude)))
    (Honors1.Wave.data (Honors1.Note.wave n)).
Proof.
  unfold Honors1.Note.init. intros H.
  apply bind_Ok_inv in H as (bpm & _ & H).
  apply bind_Ok_inv in H as (d & _ & H).
  apply bind_Ok_inv in H as (w & Hw & H). injection H as <-.
  cbn [Honors1.Note.wave].
  unfold Honors1.Wave.init in Hw.
  apply bind_Ok_inv in Hw as (samples & Hs & Hw). injection Hw as <-.
  cbn [Honors1.Wave.data].
  apply honors1_generate_wave_within in Hs.
  eapply Forall_impl; [exact Hs|]. intros x. unfold within.
  destruct (truthy pitch); [done|]. change (Z.abs 0) with 0%Z.
  pose proof (IZR_le 0 (Z.abs amplitude) (Z.abs_nonneg _)). lra.
Qed.

(** X8.  Every sample of a honors1 wave lies within [-|amplitude|,
    |amplitude|], and so does every sample of the buffer of a note
    constructed with that amplitude. *)
Theorem honors1_samples_within_amplitude :
  (∀ (a : Z) (f d : R) (samples : list R) (i : nat),
     Honors1.Wave.generate_wave a f d = Ok samples →
     within (IZR (Z.abs a)) (sample samples i))
  ∧ (∀ pitch octave duration_symbol tempo amplitude n (i : nat),
       Honors1.Note.init pitch octave duration_symbol tempo amplitude = Ok n →
       within (IZR (Z.abs amplitude))
         (sample (Honors1.Wave.data (Honors1.Note.wave n)) i)).
Proof.
  split.
  - intros a f d samples i H. apply within_sample.
    + apply (IZR_le 0), Z.abs_nonneg.
    + by eapply honors1_generate_wave_within.
  - intros pitch octave sym tempo amplitude n i H. apply within_sample.
    + apply (IZR_le 0), Z.abs_nonneg.
    + by eapply honors1_note_init_within.
Qed.

Lemma honors1_samples_within_amplitude_witness :
  Honors1.Wave.generate_wave 100 440 1
  = Ok ((fun n => IZR 100 * sin (2 * PI * 440 * instant 1 n))
          <$> seq 0 (Z.to_nat (int (IZR SAMPLERATE * 1))))
  ∧ within (IZR (Z.abs 100))
      (sample ((fun n => IZR 100 * sin (2 * PI * 440 * instant 1 n))
                 <$> seq 0 (Z.to_nat (int (IZR SAMPLERATE * 1)))) 3).
Proof.
  assert (H0 : 0 <= 1) by lra.
  pose proof (honors1_generate_wave_eq 100 440 1 H0) as H.
  split; [exact H|].
  exact (proj1 honors1_samples_within_amplitude 100%Z 440 1 _ 3%nat H).
Defined.

(** The notes a song adds to the piano all come from the constructor
    called with [AMPLITUDE]. *)
Lemma honors1_play_line_within (piano piano' : Honors1.Piano.t)
    (tempo : string) (line : list note_info) :
  Honors1.Song.play_line piano tempo line = Ok piano' →
  Forall (fun n => Forall (within 4096)
                     (Honors1.Wave.data (Honors1.Note.wave n)))
         (Honors1.Piano.notes piano) →
  Forall (fun n => Forall (within 4096)
                     (Honors1.Wave.data (Honors1.Note.wave n)))
         (Honors1.Piano.notes piano').
Proof.
  revert piano. induction line as [|i line IH]; intros piano H Hp.
  - by injection H as <-.
  - simpl in H. apply bind_Ok_inv in H as (n & Hn & H).
    apply (IH _ H). simpl. apply Forall_app. split; [done|].
    constructor; [|constructor].
    by apply honors1_note_init_within in Hn.
Qed.

Lemma honors1_play_lines_within (piano piano' : Honors1.Piano.t)
    (tempo : string) (lines : list (list note_info)) :
  Honors1.Song.play_lines piano tempo lines = Ok piano' →
  Forall (fun n => Forall (within 4096)
                     (Honors1.Wave.data (Honors1.Note.wave n)))
         (Honors1.Piano.notes piano) →
  Forall (fun n => Forall (within 4096)
                     (Honors1.Wave.data (Honors1.Note.wave n)))
         (Honors1.Piano.notes piano').
Proof.
  revert piano. induction lines as [|l lines IH]; intros piano H Hp.
  - by injection H as <-.
  - simpl in H. apply bind_Ok_inv in H as (q & Hq & H).
    apply (IH _ H). by eapply honors1_play_line_within.
Qed.

Lemma honors1_play_tempos_within (piano piano' : Honors1.Piano.t)
    (tempos : list string) (lines : list (list note_info)) :
  Honors1.Song.play_tempos piano tempos lines = Ok piano' →
  Forall (fun n => Forall (within 4096)
                     (Honors1.Wave.data (Honors1.Note.wave n)))
         (Honors1.Piano.notes piano) →
  Forall (fun n => Forall (within 4096)
                     (Honors1.Wave.data (Honors1.Note.wave n)))
         (Honors1.Piano.notes piano').
Proof.
  revert piano. induction tempos as [|t tempos IH]; intros piano H Hp.
  - by injection H as <-.
  - simpl in H. apply bind_Ok_inv in H as (q & Hq & H).
    apply (IH _ H). by eapply honors1_play_lines_within.
Qed.

(** [get_combined_wave] on any piano: the buffers of its notes, joined. *)
Lemma honors1_get_combined_wave_eq (piano : Honors1.Piano.t) :
  Honors1.Piano.get_combined_wave piano
  = Ok (mjoin (note_buffers (Honors1.Piano.notes piano))).
Proof.
  unfold Honors1.Piano.get_combined_wave.
  rewrite total_length_buffers, np_zeros_ok by lia.
  rewrite bind_Ok, Nat2Z.id.
  rewrite (place_notes_ok _ _ 0) by (rewrite length_replicate; simpl; lia).
  rewrite take_0, drop_ge by (rewrite length_replicate; simpl; lia).
  by rewrite app_nil_r.
Qed.

(** X9.  Whatever the song, every sample that honors1 hands to [write]
    lies within [-4096, 4096], so that the conversion to 16-bit integers
    never leaves their range. *)
Theorem honors1_song_within_int16 (tempos : list string)
    (lines : list (list note_info)) (out : list R) :
  Honors1.Song.load_and_play_song tempos lines = Ok out →
  Forall (within 4096) out ∧ 4096 < 32767.
Proof.
  unfold Honors1.Song.load_and_play_song. intros H.
  apply bind_Ok_inv in H as (piano & Hp & H).
  rewrite honors1_get_combined_wave_eq in H. injection H as <-.
  split; [|lra].
  apply honors1_play_tempos_within in Hp; [|constructor].
  apply Forall_join. unfold note_buffers. by apply Forall_fmap.
Qed.

(** ** Sample ranges (honors2) *)

Lemma additive_sample_within (f t : R) :
  0 <= t → within 2620 (additive_sample f t).
Proof.
  intros Ht. unfold additive_sample. rewrite harmonic_sum_audible.
  unfold harmonic_sum, sample. simpl.
  pose proof (SIN_bound (2 * PI * 1 * f * t)) as H1.
  pose proof (SIN_bound (2 * PI * (1 + 1) * f * t)) as H2.
  pose proof (SIN_bound (2 * PI * (1 + 1 + 1) * f * t)) as H3.
  set (h := 0.50991279 * sin (2 * PI * 1 * f * t)
            + (0.11674297 * sin (2 * PI * (1 + 1) * f * t)
               + (0.01287502 * sin (2 * PI * (1 + 1 + 1) * f * t) + 0))).
  assert (Hh : - 0.63953078 <= h <= 0.63953078) by (subst h; lra).
  set (e := exp (- (0.25656511) - 1.64549261 * t)).
  assert (He : 0 < e < 1).
  { subst e. split; [apply exp_pos|].
    rewrite <- exp_0. apply exp_increasing. lra. }
  unfold within, AMPLITUDE. clearbody h e. nra.
Qed.

Lemma instant_nonneg (d : R) (n : nat) :
  0 <= d → (n < Z.to_nat (int (IZR SAMPLERATE * d)))%nat → 0 <= instant d n.
Proof.
  intros Hd Hn. unfold instant.
  assert (HN : 0 < IZR (int (IZR SAMPLERATE * d))) by (apply (IZR_lt 0); lia).
  pose proof (pos_INR n).
  assert (0 <= (d - 0) / IZR (int (IZR SAMPLERATE * d))).
  { apply Rmult_le_pos; [lra|]. apply Rlt_le, Rinv_0_lt_compat, HN. }
  nra.
Qed.

Lemma honors2_generate_wave_within (f d : R) (samples : list R) :
  0 <= d → Honors2.Wave.generate_wave f d = Ok samples →
  Forall (within 2620) samples.
Proof.
  intros Hd H. rewrite honors2_generate_wave_eq in H by done.
  injection H as <-. apply Forall_fmap, Forall_forall. intros n Hn.
  apply elem_of_seq in Hn. simpl.
  apply additive_sample_within, instant_nonneg; [done | lia].
Qed.

Lemma built_within (n : Honors2.Note.t) :
  Voice.built n →
  Forall (within 2620) (Honors2.Wave.data (Honors2.Note.wave n)).
Proof.
  intros (pitch & octave & sym & tempo & Hn).
  destruct (TEMPOS !! tempo) as [bpm|] eqn:Ht;
    [|by rewrite honors2_note_init_unknown_tempo in Hn].
  destruct (DURATION_MAP !! sym) as [beats|] eqn:Hs;
    [|by rewrite (honors2_note_init_unknown_symbol _ _ _ _ _ Ht Hs) in Hn].
  pose proof (note_duration_positive bpm beats
                (tempos_positive _ _ Ht) (duration_map_positive _ _ Hs)) as Hd.
  rewrite (honors2_note_init_ok _ _ _ _ _ _ Ht Hs) in Hn.
  injection Hn as <-. cbn [Honors2.Note.wave Honors2.Wave.data].
  eapply honors2_generate_wave_within;
    [|apply honors2_generate_wave_eq]; lra.
Qed.

(** X10.  For every frequency and every duration [d >= 0], each sample
    of a honors2 wave lies within [-2620, 2620]: the decay envelope is at
    most 1 and the three audible overtone weights add up to 0.63953078. *)
Theorem honors2_samples_within (f d : R) (samples : list R) (i : nat) :
  0 <= d → Honors2.Wave.generate_wave f d = Ok samples →
  within 2620 (sample samples i).
Proof.
  intros Hd H. apply within_sample; [lra|].
  by eapply honors2_generate_wave_within.
Qed.

Lemma honors2_samples_within_witness :
  0 <= 1
  ∧ Honors2.Wave.generate_wave 440 1
    = Ok ((fun n => additive_sample 440 (instant 1 n))
            <$> seq 0 (Z.to_nat (int (IZR SAMPLERATE * 1))))
  ∧ within 2620
      (sample ((fun n => additive_sample 440 (instant 1 n))
                 <$> seq 0 (Z.to_nat (int (IZR SAMPLERATE * 1)))) 5).
Proof.
  assert (H1 : 0 <= 1) by lra.
  pose proof (honors2_generate_wave_eq 440 1 H1) as H2.
  split; [exact H1|]. split; [exact H2|].
  exact (honors2_samples_within 440 1 _ 5%nat H1 H2).
Defined.

(** ** Which songs become notes (honors2) *)

Lemma honors2_note_init_valid (i : note_info) (tempo : string)
    (n : Honors2.Note.t) :
  Honors2.Note.init (info_pitch i) (info_octave i) (info_duration i) tempo
  = Ok n →
  valid_item tempo i.
Proof.
  intros Hn. unfold valid_item.
  destruct (TEMPOS !! tempo) as [bpm|] eqn:Ht;
    [|by rewrite honors2_note_init_unknown_tempo in Hn].
  destruct (DURATION_MAP !! info_duration i) as [beats|] eqn:Hs;
    [|by rewrite (honors2_note_init_unknown_symbol _ _ _ _ _ Ht Hs) in Hn].
  split; by eexists.
Qed.

Lemma honors1_note_init_valid (i : note_info) (tempo : string) (a : Z)
    (n : Honors1.Note.t) :
  Honors1.Note.init (info_pitch i) (info_octave i) (info_duration i) tempo a
  = Ok n →
  valid_item tempo i.
Proof.
  intros Hn. unfold valid_item.
  destruct (TEMPOS !! tempo) as [bpm|] eqn:Ht;
    [|by rewrite honors1_note_init_unknown_tempo in Hn].
  destruct (DURATION_MAP !! info_duration i) as [beats|] eqn:Hs;
    [|by rewrite (honors1_note_init_unknown_symbol _ _ _ _ _ _ Ht Hs) in Hn].
  split; by eexists.
Qed.

Lemma honors2_process_notes_ok (note_infos : list note_info)
    (tempo hand : string) :
  ∀ piano,
    Forall (valid_item tempo) note_infos → Voice.composed piano →
    ∃ piano',
      Honors2.Song.process_notes piano note_infos tempo hand = Ok piano'
      ∧ Voice.composed piano'
      ∧ (hand ≠ "r"%string → hand ≠ "l"%string → piano' = piano).
Proof.
  induction note_infos as [|i rest IH]; intros piano Hvalid Hp.
  - exists piano. by repeat split.
  - apply Forall_cons in Hvalid as [[[bpm Ht] [beats Hs]] Hvalid].
    simpl. rewrite (honors2_note_init_ok _ _ _ _ _ _ Ht Hs), bind_Ok.
    match goal with
    | |- context [Honors2.Song.process_notes
                    (if _ then Honors2.Piano.add_note_right _ ?n else _) _ _ _] =>
        assert (Hn : Voice.built n)
          by (exists (info_pitch i), (info_octave i), (info_duration i), tempo;
              exact (honors2_note_init_ok _ _ _ _ _ _ Ht Hs));
        set (note := n) in *
    end.
    destruct (String.eqb_spec hand "r") as [->|Hr].
    + destruct (IH (Honors2.Piano.add_note_right piano note) Hvalid)
        as (p' & Hp' & Hc & _); [by apply Voice.composed_right|].
      exists p'. by repeat split.
    + destruct (String.eqb_spec hand "l") as [->|Hl].
      * destruct (IH (Honors2.Piano.add_note_left piano note) Hvalid)
          as (p' & Hp' & Hc & _); [by apply Voice.composed_left|].
        exists p'. by repeat split.
      * destruct (IH piano Hvalid Hp) as (p' & Hp' & Hc & Hsame).
        exists p'. repeat split; [done | done |]. intros _ _. by apply Hsame.
Qed.

Lemma honors2_process_notes_valid (note_infos : list note_info)
    (tempo hand : string) :
  ∀ piano piano',
    Honors2.Song.process_notes piano note_infos tempo hand = Ok piano' →
    Forall (valid_item tempo) note_infos.
Proof.
  induction note_infos as [|i rest IH]; intros piano piano' H; [constructor|].
  simpl in H. apply bind_Ok_inv in H as (n & Hn & H).
  constructor; [by eapply honors2_note_init_valid | by eapply IH].
Qed.

(** X14.  [process_notes] with a hand other than ['r'] and ['l'] still
    constructs every note, so a bad item raises, but it adds none of them:
    when it returns, the piano is the one it was given. *)
Theorem process_notes_other_hand (piano : Honors2.Piano.t)
    (note_infos : list note_info) (tempo hand : string) :
  hand ≠ "r"%string → hand ≠ "l"%string → Voice.composed piano →
  (Forall (valid_item tempo) note_infos →
   Honors2.Song.process_notes piano note_infos tempo hand = Ok piano)
  ∧ (∀ piano',
       Honors2.Song.process_notes piano note_infos tempo hand = Ok piano' →
       piano' = piano ∧ Forall (valid_item tempo) note_infos).
Proof.
  intros Hr Hl Hp. split.
  - intros Hvalid.
    destruct (honors2_process_notes_ok note_infos tempo hand piano Hvalid Hp)
      as (p' & Hp' & _ & Hsame).
    by rewrite Hp', (Hsame Hr Hl).
  - intros piano' H.
    pose proof (honors2_process_notes_valid _ _ _ _ _ H) as Hvalid.
    destruct (honors2_process_notes_ok note_infos tempo hand piano Hvalid Hp)
      as (p' & Hp' & _ & Hsame).
    rewrite H in Hp'. injection Hp' as <-. split; [by apply Hsame | done].
Qed.

Lemma process_notes_other_hand_witness :
  "x"%string ≠ "r"%string ∧ "x"%string ≠ "l"%string
  ∧ Voice.composed Honors2.Piano.init
  ∧ Forall (valid_item "Largo") [NoteInfo (Some "D"%string) 4 "EN"]
  ∧ Honors2.Song.process_notes Honors2.Piano.init
      [NoteInfo (Some "D"%string) 4 "EN"] "Largo" "x"
    = Ok Honors2.Piano.init.
Proof.
  assert (H1 : "x"%string ≠ "r"%string) by done.
  assert (H2 : "x"%string ≠ "l"%string) by done.
  assert (H3 : Voice.composed Honors2.Piano.init) by apply Voice.composed_init.
  assert (H4 : Forall (valid_item "Largo") [NoteInfo (Some "D"%string) 4 "EN"]).
  { repeat constructor; by eexists. }
  split; [exact H1|]. split; [exact H2|]. split; [exact H3|]. split; [exact H4|].
  exact (proj1 (process_notes_other_hand Honors2.Piano.init
                  [NoteInfo (Some "D"%string) 4 "EN"] "Largo" "x" H1 H2 H3) H4).
Defined.

Lemma honors2_play_blocks_ok (tempo : string)
    (blocks : list (list note_info * list note_info)) :
  ∀ piano,
    Forall (fun b => Forall (valid_item tempo) b.1
                     ∧ Forall (valid_item tempo) b.2) blocks →
    Voice.composed piano →
    ∃ piano',
      Honors2.Song.play_blocks piano tempo blocks = Ok piano'
      ∧ Voice.composed piano'.
Proof.
  induction blocks as [|[r l] blocks IH]; intros piano Hvalid Hp.
  - by exists piano.
  - apply Forall_cons in Hvalid as [[Hr Hl] Hvalid]. simpl in Hr, Hl.
    simpl.
    destruct (honors2_process_notes_ok r tempo "r" piano Hr Hp)
      as (p1 & -> & Hp1 & _).
    rewrite bind_Ok.
    destruct (honors2_process_notes_ok l tempo "l" p1 Hl Hp1)
      as (p2 & -> & Hp2 & _).
    rewrite bind_Ok. by apply IH.
Qed.

Lemma honors2_play_blocks_valid (tempo : string)
    (blocks : list (list note_info * list note_info)) :
  ∀ piano piano',
    Honors2.Song.play_blocks piano tempo blocks = Ok piano' →
    Forall (fun b => Forall (valid_item tempo) b.1
                     ∧ Forall (valid_item tempo) b.2) blocks.
Proof.
  induction blocks as [|[r l] blocks IH]; intros piano piano' H; [constructor|].
  simpl in H.
  apply bind_Ok_inv in H as (p1 & H1 & H).
  apply bind_Ok_inv in H as (p2 & H2 & H).
  constructor; [|by eapply IH]. simpl. split.
  - by eapply honors2_process_notes_valid.
  - by eapply honors2_process_notes_valid.
Qed.

(** X15.  honors2 turns the note lines of a song into notes, for the
    tempo the user selected, exactly when every item of every right-hand
    and left-hand line names a tempo of [TEMPOS] and a duration symbol of
    [DURATION_MAP]; pitches and octaves never make it fail.  So a song
    that is rendered has only such items. *)
Theorem honors2_song_notes_iff (tempo : string)
    (blocks : list (list note_info * list note_info)) :
  ((∃ piano,
      Honors2.Song.play_blocks Honors2.Piano.init tempo blocks = Ok piano)
   ↔ Forall (fun b => Forall (valid_item tempo) b.1
                      ∧ Forall (valid_item tempo) b.2) blocks)
  ∧ ((∃ out, Honors2.Song.load_and_play_song tempo blocks = Ok out) →
     Forall (fun b => Forall (valid_item tempo) b.1
                      ∧ Forall (valid_item tempo) b.2) blocks).
Proof.
  split; [split|].
  - intros [piano H]. by eapply honors2_play_blocks_valid.
  - intros Hvalid.
    destruct (honors2_play_blocks_ok tempo blocks Honors2.Piano.init Hvalid
                Voice.composed_init) as (p & Hp & _).
    by exists p.
  - unfold Honors2.Song.load_and_play_song.
    intros [out H]. apply bind_Ok_inv in H as (p & Hp & _).
    by eapply honors2_play_blocks_valid.
Qed.

Lemma honors2_song_notes_iff_witness :
  let blocks := [([NoteInfo (Some "C"%string) 4 "QN";
                   NoteInfo None 0 "EN"],
                  [NoteInfo (Some "G"%string) 3 "DQN"])] in
  Forall (fun b => Forall (valid_item "Andante") b.1
                   ∧ Forall (valid_item "Andante") b.2) blocks
  ∧ ∃ piano,
      Honors2.Song.play_blocks Honors2.Piano.init "Andante" blocks = Ok piano.
Proof.
  intros blocks.
  assert (H : Forall (fun b => Forall (valid_item "Andante") b.1
                               ∧ Forall (valid_item "Andante") b.2) blocks).
  { repeat constructor; by eexists. }
  split; [exact H|].
  exact (proj2 (proj1 (honors2_song_notes_iff "Andante" blocks)) H).
Defined.

(** ** Songs of honors1 *)

Lemma honors1_play_line_ok (tempo : string) (line : list note_info) :
  ∀ piano,
    Forall (valid_item tempo) line →
    ∃ piano', Honors1.Song.play_line piano tempo line = Ok piano'.
Proof.
  induction line as [|i rest IH]; intros piano Hvalid.
  - by exists piano.
  - apply Forall_cons in Hvalid as [[[bpm Ht] [beats Hs]] Hvalid].
    simpl. rewrite (honors1_note_init_ok _ _ _ _ _ _ _ Ht Hs), bind_Ok.
    by apply IH.
Qed.

Lemma honors1_play_line_valid (tempo : string) (line : list note_info) :
  ∀ piano piano',
    Honors1.Song.play_line piano tempo line = Ok piano' →
    Forall (valid_item tempo) line.
Proof.
  induction line as [|i rest IH]; intros piano piano' H; [constructor|].
  simpl in H. apply bind_Ok_inv in H as (n & Hn & H).
  constructor; [by eapply honors1_note_init_valid | by eapply IH].
Qed.

Lemma honors1_play_lines_ok (tempo : string) (lines : list (list note_info)) :
  ∀ piano,
    Forall (Forall (valid_item tempo)) lines →
    ∃ piano', Honors1.Song.play_lines piano tempo lines = Ok piano'.
Proof.
  induction lines as [|l lines IH]; intros piano Hvalid.
  - by exists piano.
  - apply Forall_cons in Hvalid as [Hl Hvalid]. simpl.
    destruct (honors1_play_line_ok tempo l piano Hl) as (p1 & ->).
    rewrite bind_Ok. by apply IH.
Qed.

Lemma honors1_play_lines_valid (tempo : string) (lines : list (list note_info)) :
  ∀ piano piano',
    Honors1.Song.play_lines piano tempo lines = Ok piano' →
    Forall (Forall (valid_item tempo)) lines.
Proof.
  induction lines as [|l lines IH]; intros piano piano' H; [constructor|].
  simpl in H. apply bind_Ok_inv in H as (p1 & H1 & H).
  constructor; [by eapply honors1_play_line_valid | by eapply IH].
Qed.

Lemma honors1_play_tempos_ok (tempos : list string)
    (lines : list (list note_info)) :
  ∀ piano,
    Forall (fun tempo => Forall (Forall (valid_item tempo)) lines) tempos →
    ∃ piano', Honors1.Song.play_tempos piano tempos lines = Ok piano'.
Proof.
  induction tempos as [|t tempos IH]; intros piano Hvalid.
  - by exists piano.
  - apply Forall_cons in Hvalid as [Ht Hvalid]. simpl.
    destruct (honors1_play_lines_ok t lines piano Ht) as (p1 & ->).
    rewrite bind_Ok. by apply IH.
Qed.

Lemma honors1_play_tempos_valid (tempos : list string)
    (lines : list (list note_info)) :
  ∀ piano piano',
    Honors1.Song.play_tempos piano tempos lines = Ok piano' →
    Forall (fun tempo => Forall (Forall (valid_item tempo)) lines) tempos.
Proof.
  induction tempos as [|t tempos IH]; intros piano piano' H; [constructor|].
  simpl in H. apply bind_Ok_inv in H as (p1 & H1 & H).
  constructor; [by eapply honors1_play_lines_valid | by eapply IH].
Qed.

(** X16.  honors1 renders a song exactly when, for every tempo of its
    first line, every item of every note line names a tempo of [TEMPOS]
    and a duration symbol of [DURATION_MAP]: one unknown tempo in the
    list, or one unknown symbol, and nothing is written. *)
Theorem honors1_song_rendered_iff (tempos : list string)
    (lines : list (list note_info)) :
  (∃ out, Honors1.Song.load_and_play_song tempos lines = Ok out)
  ↔ Forall (fun tempo => Forall (Forall (valid_item tempo)) lines) tempos.
Proof.
  unfold Honors1.Song.load_and_play_song. split.
  - intros [out H]. apply bind_Ok_inv in H as (p & Hp & _).
    by eapply honors1_play_tempos_valid.
  - intros Hvalid.
    destruct (honors1_play_tempos_ok tempos lines Honors1.Piano.init Hvalid)
      as (p & ->).
    rewrite bind_Ok, honors1_get_combined_wave_eq. by eexists.
Qed.

Lemma honors1_song_rendered_iff_witness :
  let lines := [[NoteInfo (Some "C"%string) 4 "QN";
                 NoteInfo (Some "D"%string) 4 "QN"]] in
  Forall (fun tempo => Forall (Forall (valid_item tempo)) lines)
         ["Moderato"%string; "Allegro"%string]
  ∧ ∃ out, Honors1.Song.load_and_play_song
             ["Moderato"%string; "Allegro"%string] lines = Ok out.
Proof.
  intros lines.
  assert (H : Forall (fun tempo => Forall (Forall (valid_item tempo)) lines)
                     ["Moderato"%string; "Allegro"%string]).
  { repeat constructor; by eexists. }
  split; [exact H|].
  exact (proj2 (honors1_song_rendered_iff _ lines) H).
Defined.

Lemma honors1_play_line_append (tempo : string) (line : list note_info) :
  ∀ piano,
    Honors1.Song.play_line piano tempo line
    = Honors1.Song.play_line Honors1.Piano.init tempo line ≫= λ q,
        mret (Honors1.Piano.mk
                (Honors1.Piano.notes piano ++ Honors1.Piano.notes q)).
Proof.
  induction line as [|i rest IH]; intros piano.
  - simpl. rewrite ?bind_Ok. destruct piano. simpl. by rewrite app_nil_r.
  - simpl. destruct (Honors1.Note.init _ _ _ _ _) as [n|e]; [|done].
    rewrite !bind_Ok.
    rewrite (IH (Honors1.Piano.add_note piano n)).
    rewrite (IH (Honors1.Piano.add_note Honors1.Piano.init n)).
    destruct (Honors1.Song.play_line Honors1.Piano.init tempo rest) as [q|e];
      [|done].
    rewrite !bind_Ok. simpl. by rewrite <- app_assoc.
Qed.

Lemma honors1_play_lines_append (tempo : string)
    (lines : list (list note_info)) :
  ∀ piano,
    Honors1.Song.play_lines piano tempo lines
    = Honors1.Song.play_lines Honors1.Piano.init tempo lines ≫= λ q,
        mret (Honors1.Piano.mk
                (Honors1.Piano.notes piano ++ Honors1.Piano.notes q)).
Proof.
  induction lines as [|l lines IH]; intros piano.
  - simpl. rewrite ?bind_Ok. destruct piano. simpl. by rewrite app_nil_r.
  - simpl. rewrite (honors1_play_line_append tempo l piano).
    destruct (Honors1.Song.play_line Honors1.Piano.init tempo l) as [p1|e];
      [|done].
    rewrite !bind_Ok. rewrite IH. rewrite (IH p1).
    destruct (Honors1.Song.play_lines Honors1.Piano.init tempo lines) as [q|e];
      [|done].
    rewrite !bind_Ok. simpl. by rewrite <- app_assoc.
Qed.

Lemma honors1_play_tempos_append (tempos : list string)
    (lines : list (list note_info)) :
  ∀ piano,
    Honors1.Song.play_tempos piano tempos lines
    = Honors1.Song.play_tempos Honors1.Piano.init tempos lines ≫= λ q,
        mret (Honors1.Piano.mk
                (Honors1.Piano.notes piano ++ Honors1.Piano.notes q)).
Proof.
  induction tempos as [|t tempos IH]; intros piano.
  - simpl. rewrite ?bind_Ok. destruct piano. simpl. by rewrite app_nil_r.
  - simpl. rewrite (honors1_play_lines_append t lines piano).
    destruct (Honors1.Song.play_lines Honors1.Piano.init t lines) as [p1|e];
      [|done].
    rewrite !bind_Ok. rewrite IH. rewrite (IH p1).
    destruct (Honors1.Song.play_tempos Honors1.Piano.init tempos lines)
      as [q|e]; [|done].
    rewrite !bind_Ok. simpl. by rewrite <- app_assoc.
Qed.

Lemma honors1_play_tempos_app (ts1 ts2 : list string)
    (lines : list (list note_info)) :
  ∀ piano,
    Honors1.Song.play_tempos piano (ts1 ++ ts2) lines
    = Honors1.Song.play_tempos piano ts1 lines ≫= λ p1,
        Honors1.Song.play_tempos p1 ts2 lines.
Proof.
  induction ts1 as [|t ts1 IH]; intros piano; [done|].
  simpl. destruct (Honors1.Song.play_lines piano t lines) as [p1|e]; [|done].
  rewrite !bind_Ok. apply IH.
Qed.

Lemma honors1_play_lines_app (tempo : string) (l1 l2 : list (list note_info)) :
  ∀ piano,
    Honors1.Song.play_lines piano tempo (l1 ++ l2)
    = Honors1.Song.play_lines piano tempo l1 ≫= λ p1,
        Honors1.Song.play_lines p1 tempo l2.
Proof.
  induction l1 as [|l l1 IH]; intros piano; [done|].
  simpl. destruct (Honors1.Song.play_line piano tempo l) as [p1|e]; [|done].
  rewrite !bind_Ok. apply IH.
Qed.

Lemma note_buffers_app (l1 l2 : list Honors1.Note.t) :
  mjoin (note_buffers (l1 ++ l2))
  = mjoin (note_buffers l1) ++ mjoin (note_buffers l2).
Proof. unfold note_buffers. by rewrite fmap_app, join_app. Qed.

Lemma honors1_single_tempo (tempo : string) (lines : list (list note_info)) :
  Honors1.Song.play_tempos Honors1.Piano.init [tempo] lines
  = Honors1.Song.play_lines Honors1.Piano.init tempo lines.
Proof.
  simpl. by destruct (Honors1.Song.play_lines _ _ _).
Qed.

Lemma honors1_song_ok (tempos : list string) (lines : list (list note_info)) :
  Forall (fun tempo => Forall (Forall (valid_item tempo)) lines) tempos →
  ∃ out, Honors1.Song.load_and_play_song tempos lines = Ok out.
Proof.
  intros Hvalid. unfold Honors1.Song.load_and_play_song.
  destruct (honors1_play_tempos_ok tempos lines Honors1.Piano.init Hvalid)
    as (p & ->).
  rewrite bind_Ok, honors1_get_combined_wave_eq. by eexists.
Qed.

(** X17.  honors1 plays the whole song once per tempo of the first line,
    one rendition after the other: the buffer for the tempo list
    [ts1 ++ ts2] is the buffer for [ts1] followed by the one for [ts2];
    and, at one tempo, the buffer for the lines [l1 ++ l2] is the buffer
    for [l1] followed by the one for [l2]. *)
Theorem honors1_song_concatenates :
  (∀ (ts1 ts2 : list string) (lines : list (list note_info)) (o1 o2 : list R),
     Honors1.Song.load_and_play_song ts1 lines = Ok o1 →
     Honors1.Song.load_and_play_song ts2 lines = Ok o2 →
     Honors1.Song.load_and_play_song (ts1 ++ ts2) lines = Ok (o1 ++ o2))
  ∧ (∀ (tempo : string) (l1 l2 : list (list note_info)) (o1 o2 : list R),
       Honors1.Song.load_and_play_song [tempo] l1 = Ok o1 →
       Honors1.Song.load_and_play_song [tempo] l2 = Ok o2 →
       Honors1.Song.load_and_play_song [tempo] (l1 ++ l2) = Ok (o1 ++ o2)).
Proof.
  unfold Honors1.Song.load_and_play_song. split.
  - intros ts1 ts2 lines o1 o2 H1 H2.
    apply bind_Ok_inv in H1 as (p1 & Hp1 & H1).
    apply bind_Ok_inv in H2 as (p2 & Hp2 & H2).
    rewrite honors1_get_combined_wave_eq in H1, H2.
    injection H1 as <-. injection H2 as <-.
    rewrite honors1_play_tempos_app, Hp1, bind_Ok.
    rewrite honors1_play_tempos_append, Hp2, !bind_Ok.
    rewrite honors1_get_combined_wave_eq. simpl.
    by rewrite note_buffers_app.
  - intros tempo l1 l2 o1 o2 H1 H2.
    rewrite honors1_single_tempo in H1, H2 |- *.
    apply bind_Ok_inv in H1 as (p1 & Hp1 & H1).
    apply bind_Ok_inv in H2 as (p2 & Hp2 & H2).
    rewrite honors1_get_combined_wave_eq in H1, H2.
    injection H1 as <-. injection H2 as <-.
    rewrite honors1_play_lines_app, Hp1, bind_Ok.
    rewrite honors1_play_lines_append, Hp2, !bind_Ok.
    rewrite honors1_get_combined_wave_eq. simpl.
    by rewrite note_buffers_app.
Qed.

Lemma honors1_song_concatenates_witness :
  let lines := [[NoteInfo (Some "C"%string) 4 "QN"]] in
  ∃ o1 o2,
    Honors1.Song.load_and_play_song ["Moderato"%string] lines = Ok o1
    ∧ Honors1.Song.load_and_play_song ["Allegro"%string] lines = Ok o2
    ∧ Honors1.Song.load_and_play_song
        (["Moderato"%string] ++ ["Allegro"%string]) lines
      = Ok (o1 ++ o2).
Proof.
  intros lines.
  assert (H1 : ∃ o1, Honors1.Song.load_and_play_song ["Moderato"%string] lines
                     = Ok o1).
  { apply honors1_song_ok. repeat constructor; by eexists. }
  assert (H2 : ∃ o2, Honors1.Song.load_and_play_song ["Allegro"%string] lines
                     = Ok o2).
  { apply honors1_song_ok. repeat constructor; by eexists. }
  destruct H1 as [o1 H1], H2 as [o2 H2].
  exists o1, o2. split; [exact H1|]. split; [exact H2|].
  exact (proj1 honors1_song_concatenates _ _ lines o1 o2 H1 H2).
Defined.

Lemma honors1_song_within_int16_witness :
  let lines := [[NoteInfo (Some "A"%string) 4 "HN"; NoteInfo None 0 "QN"]] in
  ∃ out,
    Honors1.Song.load_and_play_song ["Largo"%string] lines = Ok out
    ∧ Forall (within 4096) out ∧ 4096 < 32767.
Proof.
  intros lines.
  destruct (honors1_song_ok ["Largo"%string] lines) as [out Hout].
  { repeat constructor; by eexists. }
  exists out. split; [exact Hout|].
  exact (honors1_song_within_int16 ["Largo"%string] lines out Hout).
Defined.

(** * Properties of the engines with binary64 times *)

(** ** Signs of rounded results *)

Lemma round_aux_sign (s : bool) (m e : Z) (l : location) :
  match binary_round_aux Float64.prec Float64.emax s m e l with
  | S754_finite s' _ _ | S754_infinity s' | S754_zero s' => s' = s
  | S754_nan => True
  end.
Proof.
  unfold binary_round_aux.
  destruct (shr_fexp _ _ m e l) as [mrs e'].
  destruct (shr_fexp _ _ _ e' loc_Exact) as [mrs' e''].
  destruct (shr_m mrs'); [done| |done].
  by destruct (_ <=? _)%Z.
Qed.

Lemma round_aux_nonneg (m e : Z) (l : location) :
  Float64.nonneg (binary_round_aux Float64.prec Float64.emax false m e l).
Proof.
  pose proof (round_aux_sign false m e l) as H.
  by destruct (binary_round_aux _ _ _ _ _ _).
Qed.

Lemma round_nonneg (m : positive) (e : Z) :
  Float64.nonneg (binary_round Float64.prec Float64.emax false m e).
Proof.
  unfold binary_round. destruct (shl_align _ _ _).
  apply round_aux_nonneg.
Qed.

Lemma mul_nonneg (x y : Float64.float) :
  Float64.nonneg x → Float64.nonneg y → Float64.nonneg (x * y)%f64.
Proof.
  destruct x as [sx|sx| |sx mx ex], y as [sy|sy| |sy my ey]; simpl;
    try done; try (by intros -> ->); try (by intros _ ->); try (by intros -> _).
  intros -> ->. apply round_aux_nonneg.
Qed.


Lemma of_int_nonneg (z : Z) : (0 ≤ z)%Z → Float64.nonneg (Float64.of_int z).
Proof.
  intros Hz. unfold Float64.of_int, binary_normalize.
  destruct z; [done| |lia]. apply round_nonneg.
Qed.

Lemma to_int_nonneg (x : Float64.float) (z : Z) :
  Float64.nonneg x → Float64.to_int x = Ok z → (0 ≤ z)%Z.
Proof.
  destruct x as [s|s| |s m e]; simpl; try done.
  - intros _ [= <-]. lia.
  - intros -> [= <-]. apply Z.shiftl_nonneg. lia.
Qed.

Lemma to_R_nonneg (x : Float64.float) : Float64.nonneg x → 0 <= Float64.to_R x.
Proof.
  destruct x as [s|s| |s m e]; simpl; try lra.
  intros ->. simpl. apply Rmult_le_pos.
  - apply IZR_le. lia.
  - left. apply powerRZ_lt. lra.
Qed.

(** [x - x] is never positive, so [max(0, x - x)] is zero and the
    silence in front of a note that starts at the current time is empty. *)
Lemma sub_diag (x : Float64.float) :
  Float64.max (Float64.of_int 0) (x - x)%f64 = Float64.zero.
Proof.
  destruct x as [s|s| |s m e]; try (by destruct s); try done.
  unfold Float64.sub, SFsub. by rewrite Z.sub_diag.
Qed.

Lemma silence_length (x : Float64.float) :
  Float64.to_int
    (Float64.of_int SAMPLERATE * Float64.max (Float64.of_int 0) (x - x))%f64
  = Ok 0%Z.
Proof. by rewrite sub_diag. Qed.

(** ** Sample counts and sampling instants *)

Lemma rate_index_nonneg (x : Float64.float) (z : Z) :
  Float64.nonneg x → rate_index x = Ok z → (0 ≤ z)%Z.
Proof.
  intros Hx. apply to_int_nonneg, mul_nonneg; [|done].
  by apply of_int_nonneg.
Qed.

Lemma rate_index_zero : rate_index (Float64.of_int 0) = Ok 0%Z.
Proof. by vm_compute. Qed.

Lemma rounded_linspace_ok (d : Float64.float) (num : Z) :
  (0 ≤ num)%Z →
  Rounded.np_linspace (Float64.of_int 0) d num
  = Ok (sampling_instant d num <$> seq 0 (Z.to_nat num)).
Proof.
  intros Hn. unfold Rounded.np_linspace.
  destruct (num <? 0)%Z eqn:E; [lia | done].
Qed.

Lemma rounded_honors1_generate_wave_eq (a : Z) (f : R) (d : Float64.float)
    (num : Z) :
  rate_index d = Ok num → (0 ≤ num)%Z →
  Rounded.Honors1.Wave.generate_wave a f d
  = Ok ((fun n => IZR a * sin (2 * PI * f * Float64.to_R (sampling_instant d num n)))
          <$> seq 0 (Z.to_nat num)).
Proof.
  intros Hnum Hpos. unfold Rounded.Honors1.Wave.generate_wave.
  fold (rate_index d). rewrite Hnum, bind_Ok.
  rewrite rounded_linspace_ok by done. rewrite bind_Ok.
  by rewrite <- list_fmap_compose.
Qed.

Lemma rounded_honors2_generate_wave_eq (f : R) (d : Float64.float) (num : Z) :
  rate_index d = Ok num → (0 ≤ num)%Z →
  Rounded.Honors2.Wave.generate_wave f d
  = Ok ((fun n => additive_sample f (Float64.to_R (sampling_instant d num n)))
          <$> seq 0 (Z.to_nat num)).
Proof.
  intros Hnum Hpos. unfold Rounded.Honors2.Wave.generate_wave.
  fold (rate_index d). rewrite Hnum, bind_Ok.
  rewrite rounded_linspace_ok by done. rewrite bind_Ok.
  change (list_index DECAY_COEFFICIENTS 0) with (Ok 0.25656511).
  change (list_index DECAY_COEFFICIENTS 1) with (Ok 1.64549261).
  rewrite !bind_Ok. unfold np_zeros_like. rewrite length_fmap.
  rewrite <- (length_fmap Float64.to_R).
  rewrite add_overtones_eq. by rewrite <- !list_fmap_compose.
Qed.

Lemma rounded_generate_wave_raises (a : Z) (f : R) (d : Float64.float)
    (e : exn) :
  rate_index d = Raise e →
  Rounded.Honors1.Wave.generate_wave a f d = Raise e
  ∧ Rounded.Honors2.Wave.generate_wave f d = Raise e.
Proof.
  intros He. unfold Rounded.Honors1.Wave.generate_wave,
    Rounded.Honors2.Wave.generate_wave.
  fold (rate_index d). by rewrite He.
Qed.

(** ** Durations of the tables *)

(** Every tempo and duration symbol of the tables give a duration whose
    sample count [int] computes: between 1225 and 352800 samples. *)
Lemma rounded_table_durations (tempo duration_symbol : string) (bpm : Z)
    (beats : Float64.float) :
  TEMPOS !! tempo = Some bpm →
  Rounded.DURATION_MAP !! duration_symbol = Some beats →
  Float64.nonneg (beats * (Float64.of_int 60 / Float64.of_int bpm))%f64
  ∧ ∃ num,
      rate_index (beats * (Float64.of_int 60 / Float64.of_int bpm))%f64 = Ok num
      ∧ (1225 ≤ num ≤ 352800)%Z.
Proof.
  intros Ht Hs. unfold TEMPOS in Ht. unfold Rounded.DURATION_MAP in Hs.
  apply elem_of_list_to_map_2, list_elem_of_In in Ht.
  apply elem_of_list_to_map_2, list_elem_of_In in Hs.
  set (ok := fun (bpm : Z) (beats : Float64.float) =>
               let d := (beats * (Float64.of_int 60 / Float64.of_int bpm))%f64 in
               match d, rate_index d with
               | S754_finite false _ _, Ok num =>
                   (1225 <=? num)%Z && (num <=? 352800)%Z
               | _, _ => false
               end).
  match type of Ht with
  | In _ ?tempos =>
      match type of Hs with
      | In _ ?symbols =>
          assert (Hall : forallb (fun t : string * Z =>
                                    forallb (fun s : string * Float64.float =>
                                               ok t.2 s.2) symbols) tempos
                         = true) by (vm_compute; reflexivity)
      end
  end.
  rewrite forallb_forall in Hall. specialize (Hall _ Ht).
  rewrite forallb_forall in Hall. specialize (Hall _ Hs).
  unfold ok in Hall. cbn [snd] in Hall. cbv zeta in Hall.
  destruct (beats * _)%f64 as [| | |[] m e]; try done.
  destruct (rate_index _) as [num|]; [|done].
  apply andb_prop in Hall as [Hlo Hhi].
  split; [done|]. exists num. split; [done|]. lia.
Qed.

Lemma rounded_calculate_duration_ok (bpm : Z) (duration_symbol : string)
    (beats : Float64.float) :
  (0 < bpm)%Z → Rounded.DURATION_MAP !! duration_symbol = Some beats →
  Rounded.calculate_duration bpm duration_symbol
  = Ok (beats * (Float64.of_int 60 / Float64.of_int bpm))%f64.
Proof.
  intros Hbpm Hsym. unfold Rounded.calculate_duration, Rounded.truediv.
  destruct (bpm =? 0)%Z eqn:E; [lia|].
  by rewrite bind_Ok, (getitem_Some _ _ _ Hsym).
Qed.

(** ** Note construction *)

Lemma rounded_honors1_note_init_ok (pitch : option string) (octave : Z)
    (duration_symbol tempo : string) (amplitude bpm : Z)
    (beats : Float64.float) :
  TEMPOS !! tempo = Some bpm →
  Rounded.DURATION_MAP !! duration_symbol = Some beats →
  let f := if truthy pitch then calculate_frequency pitch octave else 0 in
  let d := (beats * (Float64.of_int 60 / Float64.of_int bpm))%f64 in
  let a := if truthy pitch then amplitude else 0%Z in
  ∃ num,
    rate_index d = Ok num ∧ (1225 ≤ num ≤ 352800)%Z
    ∧ Rounded.Honors1.Note.init pitch octave duration_symbol tempo amplitude
      = Ok (Rounded.Honors1.Note.mk pitch octave duration_symbol bpm f d a
              (Rounded.Honors1.Wave.mk a f d
                 ((fun n => IZR a * sin (2 * PI * f
                                         * Float64.to_R (sampling_instant d num n)))
                    <$> seq 0 (Z.to_nat num)))).
Proof.
  intros Htempo Hsym f d a.
  destruct (rounded_table_durations _ _ _ _ Htempo Hsym) as (_ & num & Hnum & Hr).
  exists num. split; [exact Hnum|]. split; [exact Hr|].
  unfold Rounded.Honors1.Note.init.
  rewrite (getitem_Some _ _ _ Htempo), bind_Ok.
  rewrite (rounded_calculate_duration_ok _ _ _ (tempos_positive _ _ Htempo) Hsym).
  rewrite bind_Ok. unfold Rounded.Honors1.Wave.init.
  by rewrite (rounded_honors1_generate_wave_eq _ _ _ num) by (done || lia).
Qed.

Lemma rounded_honors2_note_init_ok (pitch : option string) (octave : Z)
    (duration_symbol tempo : string) (bpm : Z) (beats : Float64.float) :
  TEMPOS !! tempo = Some bpm →
  Rounded.DURATION_MAP !! duration_symbol = Some beats →
  let f := if truthy pitch then calculate_frequency pitch octave else 0 in
  let d := (beats * (Float64.of_int 60 / Float64.of_int bpm))%f64 in
  ∃ num,
    rate_index d = Ok num ∧ (1225 ≤ num ≤ 352800)%Z
    ∧ Rounded.Honors2.Note.init pitch octave duration_symbol tempo
      = Ok (Rounded.Honors2.Note.mk pitch octave duration_symbol bpm f d
              (Rounded.Honors2.Wave.mk f d
                 ((fun n => additive_sample f
                              (Float64.to_R (sampling_instant d num n)))
                    <$> seq 0 (Z.to_nat num)))).
Proof.
  intros Htempo Hsym f d.
  destruct (rounded_table_durations _ _ _ _ Htempo Hsym) as (_ & num & Hnum & Hr).
  exists num. split; [exact Hnum|]. split; [exact Hr|].
  unfold Rounded.Honors2.Note.init.
  rewrite (getitem_Some _ _ _ Htempo), bind_Ok.
  rewrite (rounded_calculate_duration_ok _ _ _ (tempos_positive _ _ Htempo) Hsym).
  rewrite bind_Ok. subst f. unfold Rounded.Honors2.Wave.init.
  destruct (truthy pitch); simpl negb; cbv iota;
    by rewrite (rounded_honors2_generate_wave_eq _ _ num) by (done || lia).
Qed.

Lemma rounded_calculate_duration_inv (bpm : Z) (duration_symbol : string)
    (d : Float64.float) :
  Rounded.calculate_duration bpm duration_symbol = Ok d →
  ∃ beats,
    Rounded.DURATION_MAP !! duration_symbol = Some beats
    ∧ d = (beats * (Float64.of_int 60 / Float64.of_int bpm))%f64.
Proof.
  unfold Rounded.calculate_duration, Rounded.truediv.
  destruct (bpm =? 0)%Z; [done|]. rewrite bind_Ok. unfold getitem.
  destruct (Rounded.DURATION_MAP !! duration_symbol) as [beats|]; [|done].
  intros [= <-]. by exists beats.
Qed.


(** ** The timeline mixer with binary64 times *)

Lemma rounded_wave_init_data (f : R) (d : Float64.float) (data : list R) :
  Rounded.Honors2.Wave.init f d (Some data) = Ok (Rounded.Honors2.Wave.mk f d data).
Proof. done. Qed.

Lemma rounded_add_ok (self other : Rounded.Honors2.Wave.t) :
  ∃ w,
    Rounded.Honors2.Wave.add self other = Ok w
    ∧ length (Rounded.Honors2.Wave.data w)
      = (length (Rounded.Honors2.Wave.data self)
         `max` length (Rounded.Honors2.Wave.data other))%nat
    ∧ (∀ i, sample (Rounded.Honors2.Wave.data w) i
            = sample (Rounded.Honors2.Wave.data self) i
              + sample (Rounded.Honors2.Wave.data other) i).
Proof.
  destruct (combined_data_ok (Rounded.Honors2.Wave.data self)
              (Rounded.Honors2.Wave.data other)) as (r & Hr & Hlen & Hs).
  exists (Rounded.Honors2.Wave.mk
            (Rounded.Honors2.Wave.frequency self
             + Rounded.Honors2.Wave.frequency other)
            (Rounded.Honors2.Wave.duration self) r).
  split; [|done].
  unfold Rounded.Honors2.Wave.add. cbv zeta.
  destruct (np_zeros _) as [z|e]; [|done]. rewrite bind_Ok in Hr; rewrite bind_Ok.
  destruct (iadd_slice z _ _ _) as [c|e]; [|done]. rewrite bind_Ok in Hr; rewrite bind_Ok.
  by rewrite Hr.
Qed.

(** The statements of one pass of the loop in front of the slice
    assignment, for a note that starts at the current time: the silence
    is empty and leaves the accumulator as it is. *)
Lemma combine_loop_unfold (final_wave : Rounded.Honors2.Wave.t)
    (note : Rounded.Honors2.Note.t) (start_time : Float64.float)
    (rest : list (Rounded.Honors2.Note.t * Float64.float)) :
  ∃ w1,
    length (Rounded.Honors2.Wave.data w1)
    = length (Rounded.Honors2.Wave.data final_wave)
    ∧ (∀ i, sample (Rounded.Honors2.Wave.data w1) i
            = sample (Rounded.Honors2.Wave.data final_wave) i)
    ∧ Rounded.Honors2.Piano.combine_loop final_wave start_time
        ((note, start_time) :: rest)
      = (rate_index start_time ≫= λ start_index,
         setitem_slice (np_zeros_like (Rounded.Honors2.Wave.data w1)) start_index
           (start_index
            + len (Rounded.Honors2.Wave.data (Rounded.Honors2.Note.wave note)))
           (Rounded.Honors2.Wave.data (Rounded.Honors2.Note.wave note))
         ≫= λ note_wave_extended,
         Rounded.Honors2.Wave.add w1
           (Rounded.Honors2.Wave.mk (Rounded.Honors2.Note.frequency note)
              (Rounded.Honors2.Note.duration note) note_wave_extended)
         ≫= λ final_wave,
         Rounded.Honors2.Piano.combine_loop final_wave
           (start_time + Rounded.Honors2.Note.duration note)%f64 rest).
Proof.
  cbn [Rounded.Honors2.Piano.combine_loop].
  rewrite silence_length, bind_Ok.
  rewrite np_zeros_ok by done. rewrite bind_Ok.
  rewrite rounded_wave_init_data, bind_Ok.
  destruct (rounded_add_ok final_wave
              (Rounded.Honors2.Wave.mk 0
                 (Float64.max (Float64.of_int 0) (start_time - start_time)%f64)
                 (replicate (Z.to_nat 0) 0)))
    as (w1 & -> & Hl1 & Hs1).
  rewrite bind_Ok. simpl in Hl1, Hs1.
  exists w1. split; [lia|]. split.
  - intros i. rewrite Hs1, sample_nil. lra.
  - done.
Qed.

(** A note that fits the accumulator is added at its start index. *)
Lemma combine_step_fits (final_wave : Rounded.Honors2.Wave.t)
    (note : Rounded.Honors2.Note.t) (start_time : Float64.float)
    (rest : list (Rounded.Honors2.Note.t * Float64.float)) (index : Z) :
  rate_index start_time = Ok index → (0 ≤ index)%Z →
  (index + len (Rounded.Honors2.Wave.data (Rounded.Honors2.Note.wave note))
   ≤ len (Rounded.Honors2.Wave.data final_wave))%Z →
  ∃ w,
    length (Rounded.Honors2.Wave.data w)
    = length (Rounded.Honors2.Wave.data final_wave)
    ∧ (∀ i, sample (Rounded.Honors2.Wave.data w) i
            = sample (Rounded.Honors2.Wave.data final_wave) i
              + placed (Z.to_nat index)
                  (Rounded.Honors2.Wave.data (Rounded.Honors2.Note.wave note)) i)
    ∧ Rounded.Honors2.Piano.combine_loop final_wave start_time
        ((note, start_time) :: rest)
      = Rounded.Honors2.Piano.combine_loop w
          (start_time + Rounded.Honors2.Note.duration note)%f64 rest.
Proof.
  intros Hindex Hpos Hfit.
  destruct (combine_loop_unfold final_wave note start_time rest)
    as (w1 & Hl1 & Hs1 & ->).
  rewrite Hindex, bind_Ok.
  set (v := Rounded.Honors2.Wave.data (Rounded.Honors2.Note.wave note)) in *.
  unfold np_zeros_like.
  rewrite setitem_slice_within
    by (unfold len in *; rewrite ?length_replicate; lia).
  rewrite bind_Ok.
  set (ext := take _ _ ++ v ++ drop _ _).
  assert (Hfit' : (Z.to_nat index + length v
                   ≤ length (Rounded.Honors2.Wave.data w1))%nat)
    by (unfold len in *; lia).
  assert (Hlext : length ext = length (Rounded.Honors2.Wave.data w1)).
  { subst ext. rewrite length_setitem_within; rewrite length_replicate; [done|].
    exact Hfit'. }
  destruct (rounded_add_ok w1
              (Rounded.Honors2.Wave.mk (Rounded.Honors2.Note.frequency note)
                 (Rounded.Honors2.Note.duration note) ext))
    as (w2 & -> & Hl2 & Hs2).
  rewrite bind_Ok. simpl in Hl2, Hs2.
  exists w2. split; [lia|]. split; [|done].
  intros i. rewrite Hs2, Hs1. subst ext.
  by rewrite (sample_setitem (Rounded.Honors2.Wave.data w1) v) by exact Hfit'.
Qed.

(** A note of at least two samples that ends past the accumulator makes
    the slice assignment fail. *)
Lemma combine_step_overrun (final_wave : Rounded.Honors2.Wave.t)
    (note : Rounded.Honors2.Note.t) (start_time : Float64.float)
    (rest : list (Rounded.Honors2.Note.t * Float64.float)) (index : Z) :
  rate_index start_time = Ok index → (0 ≤ index)%Z →
  (2 ≤ len (Rounded.Honors2.Wave.data (Rounded.Honors2.Note.wave note)))%Z →
  (len (Rounded.Honors2.Wave.data final_wave)
   < index + len (Rounded.Honors2.Wave.data (Rounded.Honors2.Note.wave note)))%Z →
  Rounded.Honors2.Piano.combine_loop final_wave start_time
    ((note, start_time) :: rest)
  = Raise (ValueError "could not broadcast input array").
Proof.
  intros Hindex Hpos Hlong Hover.
  destruct (combine_loop_unfold final_wave note start_time rest)
    as (w1 & Hl1 & Hs1 & ->).
  rewrite Hindex, bind_Ok. unfold np_zeros_like.
  rewrite setitem_slice_overrun;
    [done | done | unfold len in *; rewrite length_replicate; lia | done].
Qed.


Lemma rounded_contribution_cons (note : Rounded.Honors2.Note.t)
    (start_time : Float64.float)
    (rest : list (Rounded.Honors2.Note.t * Float64.float)) (i : nat) :
  Timeline.contribution ((note, start_time) :: rest) i
  = placed (Timeline.start_index start_time)
      (Rounded.Honors2.Wave.data (Rounded.Honors2.Note.wave note)) i
    + Timeline.contribution rest i.
Proof. done. Qed.




(** ** Composed pianos *)







Lemma rounded_contribution_app
    (l1 l2 : list (Rounded.Honors2.Note.t * Float64.float)) (i : nat) :
  Timeline.contribution (l1 ++ l2) i
  = Timeline.contribution l1 i + Timeline.contribution l2 i.
Proof.
  induction l1 as [|[n s] l1 IH].
  - unfold Timeline.contribution at 2. simpl. lra.
  - rewrite <- app_comm_cons, !rounded_contribution_cons, IH. lra.
Qed.

(** ** Length of a generated wave *)

(** The real number of a positive float with a negative exponent. *)
Lemma to_R_finite_neg (m p : positive) :
  Float64.to_R (S754_finite false m (Z.neg p)) = IZR (Z.pos m) / IZR (2 ^ Z.pos p).
Proof.
  unfold Float64.to_R. cbn [cond_Zopp powerRZ]. unfold Rdiv. f_equal.
  by rewrite pow_IZR, positive_nat_Z.
Qed.

(** C1, as stated, fails: a quarter note at Presto lasts
    [1.0 * (60 / 170)] seconds; the float product [SAMPLERATE * duration]
    is 15564.70588..., and both generators return 15564 samples, which
    is not the nearest integer. *)
Lemma generate_wave_length_not_rounded :
  let d := (Float64.of_int 1 * (Float64.of_int 60 / Float64.of_int 170))%f64 in
  ∃ s1 s2,
    Rounded.Honors1.Wave.generate_wave AMPLITUDE 262 d = Ok s1
    ∧ Rounded.Honors2.Wave.generate_wave 262 d = Ok s2
    ∧ len s1 = 15564%Z ∧ len s2 = 15564%Z
    ∧ ¬ nearest_integer (len s1)
          (Float64.to_R (Float64.of_int SAMPLERATE * d)%f64)
    ∧ ¬ nearest_integer (len s2)
          (Float64.to_R (Float64.of_int SAMPLERATE * d)%f64).
Proof.
  intros d.
  assert (Hn : rate_index d = Ok 15564%Z) by (vm_compute; reflexivity).
  assert (Hx : (Float64.of_int SAMPLERATE * d)%f64
               = S754_finite false 8556787550280283 (-39))
    by (vm_compute; reflexivity).
  assert (Hfar : ¬ nearest_integer 15564
                     (Float64.to_R (Float64.of_int SAMPLERATE * d)%f64)).
  { rewrite Hx, to_R_finite_neg.
    change (2 ^ 39)%Z with 549755813888%Z.
    unfold nearest_integer. intros H.
    unfold Rabs in H. destruct (Rcase_abs _); lra. }
  do 2 eexists.
  rewrite (rounded_honors1_generate_wave_eq _ _ _ _ Hn) by lia.
  rewrite (rounded_honors2_generate_wave_eq _ _ _ Hn) by lia.
  split; [reflexivity|]. split; [reflexivity|].
  unfold len. rewrite !length_fmap_seq.
  change (Z.of_nat (Z.to_nat 15564)) with 15564%Z.
  split; [reflexivity|]. split; [reflexivity|]. split; exact Hfar.
Qed.

(** C1, amended.  For every frequency and amplitude and every float
    duration [d] that is not negative, both generators return exactly
    [int(SAMPLERATE * d)] samples, where [SAMPLERATE * d] is the float
    product, rounded to binary64 before [int] truncates it; when that
    product is not finite, [int] raises and so do both generators. *)
Theorem generate_wave_length (a : Z) (f : R) (d : Float64.float) :
  Float64.nonneg d →
  match Float64.to_int (Float64.of_int SAMPLERATE * d)%f64 with
  | Ok num =>
      (0 ≤ num)%Z
      ∧ ∃ s1 s2,
          Rounded.Honors1.Wave.generate_wave a f d = Ok s1
          ∧ Rounded.Honors2.Wave.generate_wave f d = Ok s2
          ∧ len s1 = num ∧ len s2 = num
  | Raise e =>
      Rounded.Honors1.Wave.generate_wave a f d = Raise e
      ∧ Rounded.Honors2.Wave.generate_wave f d = Raise e
  end.
Proof.
  intros Hd. fold (rate_index d).
  destruct (rate_index d) as [num|e] eqn:Hnum.
  - pose proof (rate_index_nonneg _ _ Hd Hnum) as Hpos.
    split; [exact Hpos|]. do 2 eexists.
    rewrite (rounded_honors1_generate_wave_eq _ _ _ _ Hnum) by done.
    rewrite (rounded_honors2_generate_wave_eq _ _ _ Hnum) by done.
    split; [done|]. split; [done|].
    unfold len. rewrite !length_fmap_seq. lia.
  - by apply rounded_generate_wave_raises.
Qed.

(** A half note at Moderato lasts [2.0 * (60 / 90)] seconds, the float
    1.3333333333333333: the float product with [SAMPLERATE] is 58800.0
    and the wave has 58800 samples. *)
Lemma generate_wave_length_witness :
  let d := (Float64.of_int 2 * (Float64.of_int 60 / Float64.of_int 90))%f64 in
  Float64.nonneg d
  ∧ (0 ≤ 58800)%Z
  ∧ ∃ s1 s2,
      Rounded.Honors1.Wave.generate_wave AMPLITUDE 440 d = Ok s1
      ∧ Rounded.Honors2.Wave.generate_wave 440 d = Ok s2
      ∧ len s1 = 58800%Z ∧ len s2 = 58800%Z.
Proof.
  intros d.
  assert (Hd : Float64.nonneg d) by (vm_compute; reflexivity).
  split; [exact Hd|].
  pose proof (generate_wave_length AMPLITUDE 440 d Hd) as H.
  assert (Hn : Float64.to_int (Float64.of_int SAMPLERATE * d)%f64 = Ok 58800%Z)
    by (vm_compute; reflexivity).
  rewrite Hn in H. exact H.
Defined.

(** ** Samples of the additive-decay wave *)

Lemma INR_to_nat (z : Z) : (0 ≤ z)%Z → INR (Z.to_nat z) = IZR z.
Proof. intros Hz. by rewrite INR_IZR_INZ, Z2Nat.id. Qed.

(** Values of the harmonic sum at the two instants compared below, for a
    frequency of [2048 * SAMPLERATE] Hz. *)
Lemma harmonic_sum_on_grid :
  harmonic_sum (seq 0 4) 90316800 (INR 1 / IZR SAMPLERATE) = 0.
Proof.
  unfold harmonic_sum, SAMPLERATE. simpl.
  replace (2 * PI * 0 * 90316800 * (1 / 44100)) with 0 by lra.
  replace (2 * PI * 1 * 90316800 * (1 / 44100)) with (0 + 2 * INR (Z.to_nat 2048) * PI)
    by (rewrite INR_to_nat by lia; lra).
  replace (2 * PI * (1 + 1) * 90316800 * (1 / 44100))
    with (0 + 2 * INR (Z.to_nat 4096) * PI) by (rewrite INR_to_nat by lia; lra).
  replace (2 * PI * (1 + 1 + 1) * 90316800 * (1 / 44100))
    with (0 + 2 * INR (Z.to_nat 6144) * PI) by (rewrite INR_to_nat by lia; lra).
  rewrite !sin_period, sin_0. lra.
Qed.

Lemma harmonic_sum_off_grid :
  harmonic_sum (seq 0 4) 90316800 (1 / 32768) = 0.50991279 - 0.01287502.
Proof.
  unfold harmonic_sum. simpl.
  replace (2 * PI * 0 * 90316800 * (1 / 32768)) with 0 by lra.
  replace (2 * PI * 1 * 90316800 * (1 / 32768))
    with (PI / 2 + 2 * INR (Z.to_nat 2756) * PI) by (rewrite INR_to_nat by lia; lra).
  replace (2 * PI * (1 + 1) * 90316800 * (1 / 32768))
    with (PI + 2 * INR (Z.to_nat 5512) * PI) by (rewrite INR_to_nat by lia; lra).
  replace (2 * PI * (1 + 1 + 1) * 90316800 * (1 / 32768))
    with (3 * (PI / 2) + 2 * INR (Z.to_nat 8268) * PI) by (rewrite INR_to_nat by lia; lra).
  rewrite !sin_period, sin_0, sin_PI2, sin_PI, sin_3PI2.
  unfold sample. simpl. lra.
Qed.

(** C2, as stated, fails: a wave of [2 ** -14] seconds has
    [int(44100 * 2 ** -14) = 2] samples, which the source spreads over
    the whole duration, so sample 1 is taken at [2 ** -15] seconds and
    not at [1 / SAMPLERATE]; at [2048 * SAMPLERATE] Hz the formula at
    [1 / SAMPLERATE] is 0 and the generated sample is not. *)
Lemma additive_sample_off_rate_grid :
  let d := (Float64.of_int 1 / Float64.of_int 16384)%f64 in
  ∃ samples,
    Rounded.Honors2.Wave.generate_wave 90316800 d = Ok samples
    ∧ len samples = 2%Z
    ∧ samples !! 1%nat ≠ Some (additive_sample 90316800 (INR 1 / IZR SAMPLERATE)).
Proof.
  intros d.
  assert (Hn : rate_index d = Ok 2%Z) by (vm_compute; reflexivity).
  assert (Ht : sampling_instant d 2 1 = S754_finite false 4503599627370496 (-67))
    by (vm_compute; reflexivity).
  eexists. rewrite (rounded_honors2_generate_wave_eq _ _ _ Hn) by lia.
  split; [reflexivity|]. split; [reflexivity|].
  rewrite lookup_fmap_seq by (simpl; lia).
  rewrite Ht, to_R_finite_neg.
  change (2 ^ 67)%Z with 147573952589676412928%Z.
  replace (4503599627370496 / 147573952589676412928) with (1 / 32768) by lra.
  unfold additive_sample at 2. rewrite harmonic_sum_on_grid.
  unfold additive_sample. rewrite harmonic_sum_off_grid.
  intros [= Heq]. rewrite Rmult_0_r in Heq.
  match type of Heq with context [exp ?x] => pose proof (exp_pos x) as He end.
  unfold AMPLITUDE in Heq. nra.
Qed.

(** C2, amended.  For every frequency [f], float duration [d] and index
    [n] below [N = int(SAMPLERATE * d)], sample [n] of the additive-decay
    waveform is [AMPLITUDE * exp(-a - b*t_n) * sum over k = 0..3 of
    weight[k] * sin(2*pi*k*f*t_n)], where [t_n] is point [n] of
    [np.linspace(0, d, N, endpoint=False)]: the float [n * (d / N)]
    (each operation rounded); the term of [k = 0] is zero, so the sum is
    the one over [k = 1..3]. *)
Theorem additive_wave_samples (f : R) (d : Float64.float) (num : Z) (n : nat) :
  rate_index d = Ok num →
  (Z.of_nat n < num)%Z →
  let t := Float64.to_R (sampling_instant d num n) in
  ∃ samples,
    Rounded.Honors2.Wave.generate_wave f d = Ok samples
    ∧ len samples = num
    ∧ samples !! n
      = Some (IZR AMPLITUDE
              * exp (- sample DECAY_COEFFICIENTS 0
                     - sample DECAY_COEFFICIENTS 1 * t)
              * harmonic_sum (seq 0 4) f t)
    ∧ sample OVERTONE_FACTORS 0 * sin (2 * PI * INR 0 * f * t) = 0
    ∧ harmonic_sum (seq 0 4) f t = harmonic_sum (seq 1 3) f t
    ∧ sampling_instant d num n
      = (let delta := d - Float64.of_int 0 in
         let step := delta / Float64.of_int num in
         (if Float64.eqb step Float64.zero
          then Float64.of_int (Z.of_nat n) / Float64.of_int num * delta
          else Float64.of_int (Z.of_nat n) * step)
         + Float64.of_int 0)%f64.
Proof.
  intros Hnum Hn t. eexists.
  rewrite (rounded_honors2_generate_wave_eq _ _ _ Hnum) by lia.
  split; [reflexivity|].
  split; [unfold len; rewrite length_fmap_seq; lia|].
  split; [by rewrite lookup_fmap_seq by lia|].
  split; [apply harmonic_zero|].
  split; [apply harmonic_sum_audible|].
  unfold sampling_instant, Rounded.linspace_point. cbv zeta.
  destruct (0 <? num)%Z eqn:E; [done | lia].
Qed.

Lemma additive_wave_samples_witness :
  rate_index (Float64.of_int 1) = Ok 44100%Z
  ∧ (Z.of_nat 7 < 44100)%Z
  ∧ let t := Float64.to_R (sampling_instant (Float64.of_int 1) 44100 7) in
    ∃ samples,
      Rounded.Honors2.Wave.generate_wave 440 (Float64.of_int 1) = Ok samples
      ∧ len samples = 44100%Z
      ∧ samples !! 7%nat
        = Some (IZR AMPLITUDE
                * exp (- sample DECAY_COEFFICIENTS 0
                       - sample DECAY_COEFFICIENTS 1 * t)
                * harmonic_sum (seq 0 4) 440 t)
      ∧ sample OVERTONE_FACTORS 0 * sin (2 * PI * INR 0 * 440 * t) = 0
      ∧ harmonic_sum (seq 0 4) 440 t = harmonic_sum (seq 1 3) 440 t
      ∧ sampling_instant (Float64.of_int 1) 44100 7
        = (let delta := Float64.of_int 1 - Float64.of_int 0 in
           let step := delta / Float64.of_int 44100 in
           (if Float64.eqb step Float64.zero
            then Float64.of_int (Z.of_nat 7) / Float64.of_int 44100 * delta
            else Float64.of_int (Z.of_nat 7) * step)
           + Float64.of_int 0)%f64.
Proof.
  assert (H1 : rate_index (Float64.of_int 1) = Ok 44100%Z)
    by (vm_compute; reflexivity).
  assert (H2 : (Z.of_nat 7 < 44100)%Z) by (simpl; lia).
  split; [exact H1|]. split; [exact H2|].
  exact (additive_wave_samples 440 (Float64.of_int 1) 44100 7 H1 H2).
Defined.

(** ** Rendering of the two voices *)

(** [get_combined_wave_array] once the accumulator is allocated. *)
Lemma render_unfold (p : Rounded.Honors2.Piano.t) (num : Z) :
  rate_index (Float64.max (Rounded.Honors2.Piano.time_left p)
                (Rounded.Honors2.Piano.time_right p)) = Ok num →
  (0 ≤ num)%Z →
  Rounded.Honors2.Piano.get_combined_wave_array p
  = (Rounded.Honors2.Piano.combine_loop
       (Rounded.Honors2.Wave.mk 0
          (Float64.max (Rounded.Honors2.Piano.time_left p)
             (Rounded.Honors2.Piano.time_right p))
          (replicate (Z.to_nat num) 0))
       (Float64.of_int 0) (Rounded.Honors2.Piano.notes_left p)
     ≫= λ final_wave,
     Rounded.Honors2.Piano.combine_loop final_wave (Float64.of_int 0)
       (Rounded.Honors2.Piano.notes_right p)
     ≫= λ final_wave, mret (Rounded.Honors2.Wave.data final_wave)).
Proof.
  intros Hnum Hpos.
  unfold Rounded.Honors2.Piano.get_combined_wave_array,
    Rounded.Honors2.Piano.combine_notes. cbv zeta.
  fold (rate_index (Float64.max (Rounded.Honors2.Piano.time_left p)
                      (Rounded.Honors2.Piano.time_right p))).
  rewrite Hnum, bind_Ok. rewrite np_zeros_ok by done.
  by rewrite bind_Ok, rounded_wave_init_data, bind_Ok.
Qed.



(** The note the constructor returns for a tempo and a duration symbol
    of the tables, with the number of samples evaluated. *)
Lemma rounded_note (pitch : option string) (octave : Z)
    (duration_symbol tempo : string) (bpm : Z) (beats : Float64.float)
    (num : Z) :
  TEMPOS !! tempo = Some bpm →
  Rounded.DURATION_MAP !! duration_symbol = Some beats →
  rate_index (beats * (Float64.of_int 60 / Float64.of_int bpm))%f64 = Ok num →
  ∃ note,
    Rounded.Honors2.Note.init pitch octave duration_symbol tempo = Ok note
    ∧ Timeline.built note
    ∧ Rounded.Honors2.Note.duration note
      = (beats * (Float64.of_int 60 / Float64.of_int bpm))%f64
    ∧ len (Rounded.Honors2.Wave.data (Rounded.Honors2.Note.wave note)) = num.
Proof.
  intros Htempo Hsym Hnum.
  destruct (rounded_honors2_note_init_ok pitch octave _ _ _ _ Htempo Hsym)
    as (num' & Hnum' & Hr & Hinit).
  rewrite Hnum in Hnum'. injection Hnum' as <-.
  eexists. split; [exact Hinit|]. split; [by do 4 eexists|].
  split; [done|]. cbn [Rounded.Honors2.Note.wave Rounded.Honors2.Wave.data].
  unfold len. rewrite length_fmap_seq. lia.
Qed.





(** ** Placements that overrun the accumulator *)

(** C6.  The source does not clip: three quarter notes at Largo in the
    left hand (and an empty right hand) are recorded at the float times
    0, 1.2 and 2.4, that is at the indices 0, 52920 and 105840; the left
    clock ends at 3.5999999999999996 and the accumulator gets
    [int(44100 * 3.5999999999999996) = 158759] samples, one less than
    the 158760 that the third note of 52920 samples needs.  The slice
    assignment of [combine_notes] then raises numpy's broadcast error
    instead of truncating the note. *)
Theorem overrunning_note_raises :
  ∃ note,
    Rounded.Honors2.Note.init (Some "C"%string) 4 "QN" "Largo" = Ok note
    ∧ len (Rounded.Honors2.Wave.data (Rounded.Honors2.Note.wave note)) = 52920%Z
    ∧ let p := Rounded.Honors2.Piano.add_note_left
                 (Rounded.Honors2.Piano.add_note_left
                    (Rounded.Honors2.Piano.add_note_left
                       Rounded.Honors2.Piano.init note) note) note in
      Timeline.composed p
      ∧ (fun placement => rate_index placement.2)
          <$> Rounded.Honors2.Piano.notes_left p
        = [Ok 0%Z; Ok 52920%Z; Ok 105840%Z]
      ∧ Rounded.Honors2.Piano.notes_right p = []
      ∧ rate_index (Float64.max (Rounded.Honors2.Piano.time_left p)
                      (Rounded.Honors2.Piano.time_right p)) = Ok 158759%Z
      ∧ Rounded.Honors2.Piano.get_combined_wave_array p
        = Raise (ValueError "could not broadcast input array").
Proof.
  destruct (rounded_note (Some "C"%string) 4 "QN" "Largo" 50
              (Float64.of_int 1) 52920 eq_refl eq_refl)
    as (note & Hinit & Hbuilt & Hd & Hlen); [vm_compute; reflexivity|].
  exists note. split; [exact Hinit|]. split; [exact Hlen|]. intros p.
  assert (Hp : Timeline.composed p).
  { do 3 (apply Timeline.composed_left; [|exact Hbuilt]).
    apply Timeline.composed_init. }
  split; [exact Hp|].
  assert (Hfields :
            Rounded.Honors2.Piano.notes_left p
            = [(note, Float64.of_int 0);
               (note, (Float64.of_int 0 + Rounded.Honors2.Note.duration note)%f64);
               (note, (Float64.of_int 0 + Rounded.Honors2.Note.duration note
                       + Rounded.Honors2.Note.duration note)%f64)]
            ∧ Rounded.Honors2.Piano.notes_right p = []
            ∧ Rounded.Honors2.Piano.time_left p
              = (Float64.of_int 0 + Rounded.Honors2.Note.duration note
                 + Rounded.Honors2.Note.duration note
                 + Rounded.Honors2.Note.duration note)%f64
            ∧ Rounded.Honors2.Piano.time_right p = Float64.of_int 0)
    by (subst p; repeat split; reflexivity).
  destruct Hfields as (Hleft & Hright & Htl & Htr).
  rewrite Hd in Hleft, Htl.
  set (d := (Float64.of_int 1 * (Float64.of_int 60 / Float64.of_int 50))%f64)
    in *.
  set (t0 := Float64.of_int 0) in *.
  assert (H0 : rate_index t0 = Ok 0%Z) by exact rate_index_zero.
  assert (H1 : rate_index (t0 + d)%f64 = Ok 52920%Z) by (vm_compute; reflexivity).
  assert (H2 : rate_index (t0 + d + d)%f64 = Ok 105840%Z)
    by (vm_compute; reflexivity).
  assert (Hmax : Float64.max (t0 + d + d + d)%f64 t0 = (t0 + d + d + d)%f64)
    by (vm_compute; reflexivity).
  assert (H3 : rate_index (t0 + d + d + d)%f64 = Ok 158759%Z)
    by (vm_compute; reflexivity).
  assert (Htime : rate_index (Float64.max (Rounded.Honors2.Piano.time_left p)
                                (Rounded.Honors2.Piano.time_right p))
                  = Ok 158759%Z)
    by (by rewrite Htl, Htr, Hmax).
  split; [rewrite Hleft; cbn [fmap list_fmap snd]; by rewrite H0, H1, H2|].
  split; [exact Hright|].
  split; [exact Htime|].
  rewrite (render_unfold p 158759 Htime) by lia.
  rewrite Hleft, Hright. fold t0.
  set (fw := Rounded.Honors2.Wave.mk _ _ _).
  assert (Hfw : len (Rounded.Honors2.Wave.data fw) = 158759%Z)
    by (subst fw; unfold len; cbn [Rounded.Honors2.Wave.data];
        rewrite length_replicate; lia).
  destruct (combine_step_fits fw note t0
              [(note, (t0 + d)%f64); (note, (t0 + d + d)%f64)] 0 H0)
    as (w1 & Hl1 & _ & ->); [lia | lia |].
  rewrite Hd. fold d.
  destruct (combine_step_fits w1 note (t0 + d)%f64
              [(note, (t0 + d + d)%f64)] 52920 H1)
    as (w2 & Hl2 & _ & ->); [lia | unfold len in *; lia |].
  rewrite Hd. fold d.
  rewrite (combine_step_overrun w2 note (t0 + d + d)%f64 [] 105840 H2)
    by (unfold len in *; lia).
  done.
Qed.

(** ** Silence *)

(** X1.  A wave of frequency 0 is silent in both files: for every float
    duration [d] that is not negative (and every amplitude),
    [generate_wave] returns [int(SAMPLERATE * d)] samples, all zero. *)
Theorem zero_frequency_is_silent (a : Z) (d : Float64.float) (num : Z) :
  Float64.nonneg d →
  Float64.to_int (Float64.of_int SAMPLERATE * d)%f64 = Ok num →
  Rounded.Honors1.Wave.generate_wave a 0 d = Ok (replicate (Z.to_nat num) 0)
  ∧ Rounded.Honors2.Wave.generate_wave 0 d = Ok (replicate (Z.to_nat num) 0).
Proof.
  intros Hd Hnum. fold (rate_index d) in Hnum.
  pose proof (rate_index_nonneg _ _ Hd Hnum) as Hpos.
  rewrite (rounded_honors1_generate_wave_eq _ _ _ _ Hnum) by done.
  rewrite (rounded_honors2_generate_wave_eq _ _ _ Hnum) by done.
  split; f_equal; apply fmap_seq_zero; intros i _.
  - match goal with
    | |- _ * sin (2 * PI * 0 * ?t) = 0 =>
        replace (2 * PI * 0 * t) with 0 by ring
    end.
    rewrite sin_0. ring.
  - apply additive_sample_zero_frequency.
Qed.

Lemma zero_frequency_is_silent_witness :
  Float64.nonneg (Float64.of_int 2)
  ∧ Float64.to_int (Float64.of_int SAMPLERATE * Float64.of_int 2)%f64 = Ok 88200%Z
  ∧ Rounded.Honors1.Wave.generate_wave AMPLITUDE 0 (Float64.of_int 2)
    = Ok (replicate (Z.to_nat 88200) 0)
  ∧ Rounded.Honors2.Wave.generate_wave 0 (Float64.of_int 2)
    = Ok (replicate (Z.to_nat 88200) 0).
Proof.
  assert (H1 : Float64.nonneg (Float64.of_int 2)) by (vm_compute; reflexivity).
  assert (H2 : Float64.to_int (Float64.of_int SAMPLERATE * Float64.of_int 2)%f64
               = Ok 88200%Z) by (vm_compute; reflexivity).
  split; [exact H1|]. split; [exact H2|].
  exact (zero_frequency_is_silent AMPLITUDE (Float64.of_int 2) 88200 H1 H2).
Defined.

(** X2.  A rest (pitch [None] or the empty string) with a tempo and a
    duration symbol of the tables is built as a silent note in both
    files: frequency 0, amplitude 0 in honors1, and a buffer of
    [int(SAMPLERATE * duration)] zeros, whatever the octave. *)
Theorem rest_is_silent (pitch : option string) (octave : Z)
    (duration_symbol tempo : string) (amplitude : Z) :
  truthy pitch = false →
  is_Some (TEMPOS !! tempo) →
  is_Some (Rounded.DURATION_MAP !! duration_symbol) →
  ∃ n1 n2 num,
    Rounded.Honors1.Note.init pitch octave duration_symbol tempo amplitude = Ok n1
    ∧ Rounded.Honors2.Note.init pitch octave duration_symbol tempo = Ok n2
    ∧ Rounded.Honors1.Note.frequency n1 = 0
    ∧ Rounded.Honors1.Note.amplitude n1 = 0%Z
    ∧ Rounded.Honors2.Note.frequency n2 = 0
    ∧ Rounded.Honors1.Note.duration n1 = Rounded.Honors2.Note.duration n2
    ∧ Float64.to_int
        (Float64.of_int SAMPLERATE * Rounded.Honors2.Note.duration n2)%f64
      = Ok num
    ∧ Rounded.Honors1.Wave.data (Rounded.Honors1.Note.wave n1)
      = replicate (Z.to_nat num) 0
    ∧ Rounded.Honors2.Wave.data (Rounded.Honors2.Note.wave n2)
      = replicate (Z.to_nat num) 0.
Proof.
  intros Hp [bpm Ht] [beats Hs].
  destruct (rounded_honors1_note_init_ok pitch octave _ _ amplitude _ _ Ht Hs)
    as (num & Hnum & _ & H1).
  destruct (rounded_honors2_note_init_ok pitch octave _ _ _ _ Ht Hs)
    as (num' & Hnum' & _ & H2).
  rewrite Hnum in Hnum'. injection Hnum' as <-.
  do 2 eexists. exists num.
  split; [exact H1|]. split; [exact H2|].
  cbn [Rounded.Honors1.Note.frequency Rounded.Honors1.Note.amplitude
       Rounded.Honors2.Note.frequency Rounded.Honors1.Note.wave
       Rounded.Honors2.Note.wave Rounded.Honors1.Wave.data
       Rounded.Honors2.Wave.data Rounded.Honors1.Note.duration
       Rounded.Honors2.Note.duration].
  rewrite Hp.
  split; [done|]. split; [done|]. split; [done|]. split; [done|].
  split; [exact Hnum|]. split.
  - apply fmap_seq_zero. intros i _. simpl. ring.
  - apply fmap_seq_zero. intros i _. apply additive_sample_zero_frequency.
Qed.

Lemma rest_is_silent_witness :
  truthy None = false
  ∧ is_Some (TEMPOS !! "Moderato"%string)
  ∧ is_Some (Rounded.DURATION_MAP !! "HN"%string)
  ∧ ∃ n1 n2 num,
      Rounded.Honors1.Note.init None 0 "HN" "Moderato" AMPLITUDE = Ok n1
      ∧ Rounded.Honors2.Note.init None 0 "HN" "Moderato" = Ok n2
      ∧ Rounded.Honors1.Note.frequency n1 = 0
      ∧ Rounded.Honors1.Note.amplitude n1 = 0%Z
      ∧ Rounded.Honors2.Note.frequency n2 = 0
      ∧ Rounded.Honors1.Note.duration n1 = Rounded.Honors2.Note.duration n2
      ∧ Float64.to_int
          (Float64.of_int SAMPLERATE * Rounded.Honors2.Note.duration n2)%f64
        = Ok num
      ∧ Rounded.Honors1.Wave.data (Rounded.Honors1.Note.wave n1)
        = replicate (Z.to_nat num) 0
      ∧ Rounded.Honors2.Wave.data (Rounded.Honors2.Note.wave n2)
        = replicate (Z.to_nat num) 0.
Proof.
  assert (H1 : truthy None = false) by reflexivity.
  assert (H2 : is_Some (TEMPOS !! "Moderato"%string)) by (by eexists).
  assert (H3 : is_Some (Rounded.DURATION_MAP !! "HN"%string)) by (by eexists).
  split; [exact H1|]. split; [exact H2|]. split; [exact H3|].
  exact (rest_is_silent None 0 "HN" "Moderato" AMPLITUDE H1 H2 H3).
Defined.

(** ** What the constructor guarantees *)

(** X3.  Every note the constructors build from a tempo and a duration
    symbol of the tables keeps these relations between its fields, in both
    files: the tempo is the table's value, the duration is the float
    [beats * (60 / tempo)] (quotient and product rounded) and is not
    negative, the wave carries the note's frequency and duration (and
    amplitude, in honors1), the buffer has [int(SAMPLERATE * duration)]
    samples, between 1225 and 352800, and the frequency is positive for
    a pitched note. *)
Theorem constructed_note_fields (pitch : option string) (octave : Z)
    (duration_symbol tempo : string) (amplitude bpm : Z)
    (beats : Float64.float) :
  TEMPOS !! tempo = Some bpm →
  Rounded.DURATION_MAP !! duration_symbol = Some beats →
  ∃ n1 n2 num,
    Rounded.Honors1.Note.init pitch octave duration_symbol tempo amplitude = Ok n1
    ∧ Rounded.Honors2.Note.init pitch octave duration_symbol tempo = Ok n2
    ∧ (Rounded.Honors1.Note.tempo n1 = bpm ∧ Rounded.Honors2.Note.tempo n2 = bpm)
    ∧ (Rounded.Honors1.Note.duration n1
       = (beats * (Float64.of_int 60 / Float64.of_int bpm))%f64
       ∧ Rounded.Honors2.Note.duration n2
         = (beats * (Float64.of_int 60 / Float64.of_int bpm))%f64
       ∧ Float64.nonneg (beats * (Float64.of_int 60 / Float64.of_int bpm))%f64)
    ∧ (Rounded.Honors1.Wave.frequency (Rounded.Honors1.Note.wave n1)
       = Rounded.Honors1.Note.frequency n1
       ∧ Rounded.Honors1.Wave.duration (Rounded.Honors1.Note.wave n1)
         = Rounded.Honors1.Note.duration n1
       ∧ Rounded.Honors1.Wave.amplitude (Rounded.Honors1.Note.wave n1)
         = Rounded.Honors1.Note.amplitude n1
       ∧ Rounded.Honors2.Wave.frequency (Rounded.Honors2.Note.wave n2)
         = Rounded.Honors2.Note.frequency n2
       ∧ Rounded.Honors2.Wave.duration (Rounded.Honors2.Note.wave n2)
         = Rounded.Honors2.Note.duration n2)
    ∧ (Float64.to_int
         (Float64.of_int SAMPLERATE * Rounded.Honors2.Note.duration n2)%f64
       = Ok num
       ∧ (1225 ≤ num ≤ 352800)%Z
       ∧ len (Rounded.Honors1.Wave.data (Rounded.Honors1.Note.wave n1)) = num
       ∧ len (Rounded.Honors2.Wave.data (Rounded.Honors2.Note.wave n2)) = num)
    ∧ (truthy pitch = true →
       0 < Rounded.Honors1.Note.frequency n1
       ∧ 0 < Rounded.Honors2.Note.frequency n2
       ∧ Rounded.Honors1.Note.amplitude n1 = amplitude).
Proof.
  intros Ht Hs.
  destruct (rounded_table_durations _ _ _ _ Ht Hs) as (Hnn & _).
  destruct (rounded_honors1_note_init_ok pitch octave _ _ amplitude _ _ Ht Hs)
    as (num & Hnum & Hr & H1).
  destruct (rounded_honors2_note_init_ok pitch octave _ _ _ _ Ht Hs)
    as (num' & Hnum' & _ & H2).
  rewrite Hnum in Hnum'. injection Hnum' as <-.
  do 2 eexists. exists num.
  split; [exact H1|]. split; [exact H2|].
  cbn [Rounded.Honors1.Note.frequency Rounded.Honors1.Note.amplitude
       Rounded.Honors2.Note.frequency Rounded.Honors1.Note.wave
       Rounded.Honors2.Note.wave Rounded.Honors1.Wave.data
       Rounded.Honors2.Wave.data Rounded.Honors1.Note.duration
       Rounded.Honors2.Note.duration Rounded.Honors1.Note.tempo
       Rounded.Honors2.Note.tempo Rounded.Honors1.Wave.frequency
       Rounded.Honors1.Wave.duration Rounded.Honors1.Wave.amplitude
       Rounded.Honors2.Wave.frequency Rounded.Honors2.Wave.duration].
  split; [done|]. split; [done|]. split; [done|]. split.
  - split; [exact Hnum|]. split; [exact Hr|].
    unfold len. rewrite !length_fmap_seq. split; lia.
  - intros Hp. rewrite Hp. destruct pitch as [p|]; [|done].
    pose proof (calculate_frequency_positive p octave Hp). done.
Qed.

Lemma constructed_note_fields_witness :
  TEMPOS !! "Largo"%string = Some 50%Z
  ∧ Rounded.DURATION_MAP !! "DQN"%string
    = Some (Float64.of_int 3 / Float64.of_int 2)%f64
  ∧ ∃ n1 n2,
      Rounded.Honors1.Note.init (Some "C"%string) 4 "DQN" "Largo" AMPLITUDE
      = Ok n1
      ∧ Rounded.Honors2.Note.init (Some "C"%string) 4 "DQN" "Largo" = Ok n2
      ∧ len (Rounded.Honors1.Wave.data (Rounded.Honors1.Note.wave n1)) = 79379%Z
      ∧ len (Rounded.Honors2.Wave.data (Rounded.Honors2.Note.wave n2)) = 79379%Z.
Proof.
  assert (H1 : TEMPOS !! "Largo"%string = Some 50%Z) by reflexivity.
  assert (H2 : Rounded.DURATION_MAP !! "DQN"%string
               = Some (Float64.of_int 3 / Float64.of_int 2)%f64) by reflexivity.
  split; [exact H1|]. split; [exact H2|].
  destruct (constructed_note_fields (Some "C"%string) 4 "DQN" "Largo"
              AMPLITUDE 50 (Float64.of_int 3 / Float64.of_int 2)%f64 H1 H2)
    as (n1 & n2 & num & Hn1 & Hn2 & _ & (_ & Hd & _) & _ & (Hnum & _ & Hl1 & Hl2) & _).
  exists n1, n2. split; [exact Hn1|]. split; [exact Hn2|].
  rewrite Hd in Hnum.
  assert (Hc : Float64.to_int
                 (Float64.of_int SAMPLERATE
                  * (Float64.of_int 3 / Float64.of_int 2
                     * (Float64.of_int 60 / Float64.of_int 50)))%f64
               = Ok 79379%Z) by (vm_compute; reflexivity).
  rewrite Hc in Hnum. injection Hnum as <-. split; assumption.
Defined.

(** ** Length of a honors1 rendition *)

Lemma rounded_total_length_buffers (notes : list Rounded.Honors1.Note.t) :
  foldr Z.add 0%Z
    ((fun note => len (Rounded.Honors1.Wave.data (Rounded.Honors1.Note.wave note)))
       <$> notes)
  = Z.of_nat (sum_list (length <$> rounded_note_buffers notes)).
Proof.
  induction notes as [|n notes IH]; [done|].
  csimpl. rewrite IH. unfold len. lia.
Qed.

Lemma rounded_place_notes_ok (notes : list Rounded.Honors1.Note.t) :
  ∀ (combined : list R) (cur : nat),
    (cur + sum_list (length <$> rounded_note_buffers notes)
     ≤ length combined)%nat →
    Rounded.Honors1.Piano.place_notes notes combined (Z.of_nat cur)
    = Ok (take cur combined ++ mjoin (rounded_note_buffers notes)
          ++ drop (cur + sum_list (length <$> rounded_note_buffers notes))
               combined).
Proof.
  induction notes as [|note notes IH]; intros combined cur Hfit.
  - simpl. by rewrite Nat.add_0_r, take_drop.
  - csimpl in *.
    set (v := Rounded.Honors1.Wave.data (Rounded.Honors1.Note.wave note)) in *.
    rewrite setitem_slice_within by (unfold len; lia).
    rewrite bind_Ok, Nat2Z.id.
    set (c := take cur combined ++ v ++ drop (cur + length v) combined).
    assert (Hc : c = (take cur combined ++ v) ++ drop (cur + length v) combined)
      by (subst c; by rewrite app_assoc).
    assert (Hl : length (take cur combined ++ v) = (cur + length v)%nat)
      by (rewrite length_app, length_take; lia).
    replace (Z.of_nat cur + len v)%Z with (Z.of_nat (cur + length v))
      by (unfold len; lia).
    rewrite IH.
    + f_equal. rewrite Hc.
      rewrite take_app_length' by done.
      rewrite drop_app_ge by lia. rewrite Hl, drop_drop.
      rewrite <- !app_assoc. do 4 f_equal. lia.
    + rewrite Hc, length_app, Hl, length_drop. lia.
Qed.

Lemma rounded_get_combined_wave_eq (piano : Rounded.Honors1.Piano.t) :
  Rounded.Honors1.Piano.get_combined_wave piano
  = Ok (mjoin (rounded_note_buffers (Rounded.Honors1.Piano.notes piano))).
Proof.
  unfold Rounded.Honors1.Piano.get_combined_wave.
  rewrite rounded_total_length_buffers, np_zeros_ok by lia.
  rewrite bind_Ok, Nat2Z.id.
  rewrite (rounded_place_notes_ok _ _ 0)
    by (rewrite length_replicate; simpl; lia).
  rewrite take_0, drop_ge by (rewrite length_replicate; simpl; lia).
  by rewrite app_nil_r.
Qed.

Lemma rounded_honors1_note_init_inv (i : note_info) (tempo : string) (a : Z)
    (n : Rounded.Honors1.Note.t) :
  Rounded.Honors1.Note.init (info_pitch i) (info_octave i) (info_duration i)
    tempo a = Ok n →
  is_Some (TEMPOS !! tempo)
  ∧ is_Some (Rounded.DURATION_MAP !! info_duration i)
  ∧ length (Rounded.Honors1.Wave.data (Rounded.Honors1.Note.wave n))
    = item_length tempo i.
Proof.
  intros Hinit. pose proof Hinit as Hinit'.
  unfold Rounded.Honors1.Note.init in Hinit'.
  apply bind_Ok_inv in Hinit' as (bpm & Hbpm & Hinit').
  apply bind_Ok_inv in Hinit' as (d & Hd & _).
  unfold getitem in Hbpm.
  destruct (TEMPOS !! tempo) as [bpm'|] eqn:Htempo; [|done].
  injection Hbpm as ->.
  apply rounded_calculate_duration_inv in Hd as (beats & Hsym & ->).
  split; [by eexists|]. split; [by eexists|].
  destruct (rounded_honors1_note_init_ok (info_pitch i) (info_octave i) _ _ a
              _ _ Htempo Hsym) as (num & Hnum & Hr & Heq).
  rewrite Heq in Hinit. injection Hinit as <-.
  unfold item_length. rewrite Htempo, Hsym, Hnum.
  cbn [Rounded.Honors1.Note.wave Rounded.Honors1.Wave.data].
  apply length_fmap_seq.
Qed.

Lemma rounded_play_line_length (tempo : string) (line : list note_info) :
  ∀ piano piano',
    Rounded.Honors1.Song.play_line piano tempo line = Ok piano' →
    sum_list (length <$> rounded_note_buffers (Rounded.Honors1.Piano.notes piano'))
    = (sum_list (length
                   <$> rounded_note_buffers (Rounded.Honors1.Piano.notes piano))
       + sum_list (item_length tempo <$> line))%nat.
Proof.
  induction line as [|i rest IH]; intros piano piano' H.
  - injection H as <-. simpl. lia.
  - simpl in H. apply bind_Ok_inv in H as (n & Hn & H).
    rewrite (IH _ _ H). csimpl.
    unfold rounded_note_buffers. rewrite !fmap_app, sum_list_with_app. csimpl.
    apply rounded_honors1_note_init_inv in Hn as (_ & _ & ->). lia.
Qed.

Lemma rounded_play_lines_length (tempo : string)
    (lines : list (list note_info)) :
  ∀ piano piano',
    Rounded.Honors1.Song.play_lines piano tempo lines = Ok piano' →
    sum_list (length <$> rounded_note_buffers (Rounded.Honors1.Piano.notes piano'))
    = (sum_list (length
                   <$> rounded_note_buffers (Rounded.Honors1.Piano.notes piano))
       + sum_list ((fun line => sum_list (item_length tempo <$> line))
                     <$> lines))%nat.
Proof.
  induction lines as [|l lines IH]; intros piano piano' H.
  - injection H as <-. simpl. lia.
  - simpl in H. apply bind_Ok_inv in H as (p1 & H1 & H).
    rewrite (IH _ _ H), (rounded_play_line_length _ _ _ _ H1). csimpl. lia.
Qed.

Lemma rounded_play_tempos_length (tempos : list string)
    (lines : list (list note_info)) :
  ∀ piano piano',
    Rounded.Honors1.Song.play_tempos piano tempos lines = Ok piano' →
    sum_list (length <$> rounded_note_buffers (Rounded.Honors1.Piano.notes piano'))
    = (sum_list (length
                   <$> rounded_note_buffers (Rounded.Honors1.Piano.notes piano))
       + sum_list
           ((fun tempo =>
               sum_list ((fun line => sum_list (item_length tempo <$> line))
                           <$> lines))
              <$> tempos))%nat.
Proof.
  induction tempos as [|t tempos IH]; intros piano piano' H.
  - injection H as <-. simpl. lia.
  - simpl in H. apply bind_Ok_inv in H as (p1 & H1 & H).
    rewrite (IH _ _ H), (rounded_play_lines_length _ _ _ _ H1). csimpl. lia.
Qed.

Lemma rounded_play_line_ok (tempo : string) (line : list note_info) :
  ∀ piano,
    Forall (fun i => is_Some (TEMPOS !! tempo)
                     ∧ is_Some (Rounded.DURATION_MAP !! info_duration i)) line →
    ∃ piano', Rounded.Honors1.Song.play_line piano tempo line = Ok piano'.
Proof.
  induction line as [|i rest IH]; intros piano Hvalid.
  - by exists piano.
  - apply Forall_cons in Hvalid as [[[bpm Ht] [beats Hs]] Hvalid].
    simpl.
    destruct (rounded_honors1_note_init_ok (info_pitch i) (info_octave i) _ _
                AMPLITUDE _ _ Ht Hs) as (num & _ & _ & ->).
    rewrite bind_Ok. by apply IH.
Qed.

(** X18.  The buffer honors1 writes has one run of
    [int(SAMPLERATE * (beats * (60 / tempo)))] samples per item (float
    quotient and products, rounded), for every tempo of the first line
    and every item of every note line: its length is the sum of these
    numbers. *)
Theorem honors1_song_length (tempos : list string)
    (lines : list (list note_info)) (out : list R) :
  Rounded.Honors1.Song.load_and_play_song tempos lines = Ok out →
  length out
  = sum_list
      ((fun tempo =>
          sum_list ((fun line => sum_list (item_length tempo <$> line))
                      <$> lines))
         <$> tempos).
Proof.
  unfold Rounded.Honors1.Song.load_and_play_song. intros H.
  apply bind_Ok_inv in H as (p & Hp & H).
  rewrite rounded_get_combined_wave_eq in H. injection H as <-.
  rewrite length_join.
  by rewrite (rounded_play_tempos_length _ _ _ _ Hp).
Qed.

(** Two quarter notes and a dotted quarter note at Largo: 52920, 52920
    and 79379 samples. *)
Lemma honors1_song_length_witness :
  let lines := [[NoteInfo (Some "C"%string) 4 "QN";
                 NoteInfo (Some "D"%string) 4 "QN";
                 NoteInfo (Some "E"%string) 4 "DQN"]] in
  ∃ out,
    Rounded.Honors1.Song.load_and_play_song ["Largo"%string] lines = Ok out
    ∧ length out = Z.to_nat 185219.
Proof.
  intros lines.
  assert (Hout : ∃ out, Rounded.Honors1.Song.load_and_play_song
                          ["Largo"%string] lines = Ok out).
  { unfold Rounded.Honors1.Song.load_and_play_song.
    cbn [Rounded.Honors1.Song.play_tempos Rounded.Honors1.Song.play_lines lines].
    destruct (rounded_play_line_ok "Largo"
                [NoteInfo (Some "C"%string) 4 "QN";
                 NoteInfo (Some "D"%string) 4 "QN";
                 NoteInfo (Some "E"%string) 4 "DQN"]
                Rounded.Honors1.Piano.init) as (p & ->).
    { repeat (apply Forall_cons; split; [split; by eexists|]).
      by apply Forall_nil. }
    rewrite !bind_Ok, rounded_get_combined_wave_eq. by eexists. }
  destruct Hout as [out Hout]. exists out. split; [exact Hout|].
  rewrite (honors1_song_length ["Largo"%string] lines out Hout).
  assert (Hq : ∀ pitch octave,
            item_length "Largo" (NoteInfo pitch octave "QN") = Z.to_nat 52920).
  { intros pitch octave. unfold item_length. cbn [info_duration].
    change (TEMPOS !! "Largo"%string) with (Some 50%Z).
    change (Rounded.DURATION_MAP !! "QN"%string) with (Some (Float64.of_int 1)).
    cbv iota beta.
    by replace (rate_index (Float64.of_int 1
                            * (Float64.of_int 60 / Float64.of_int 50))%f64)
      with (@Ok Z 52920%Z) by (vm_compute; reflexivity). }
  assert (Hd : ∀ pitch octave,
            item_length "Largo" (NoteInfo pitch octave "DQN") = Z.to_nat 79379).
  { intros pitch octave. unfold item_length. cbn [info_duration].
    change (TEMPOS !! "Largo"%string) with (Some 50%Z).
    change (Rounded.DURATION_MAP !! "DQN"%string)
      with (Some (Float64.of_int 3 / Float64.of_int 2)%f64).
    cbv iota beta.
    by replace (rate_index (Float64.of_int 3 / Float64.of_int 2
                            * (Float64.of_int 60 / Float64.of_int 50))%f64)
      with (@Ok Z 79379%Z) by (vm_compute; reflexivity). }
  subst lines. cbn [fmap list_fmap sum_list sum_list_with].
  rewrite !Hq, Hd. unfold Datatypes.id. lia.
Defined.
